(** * A shallow embedding of the batch-streaming plugin and two helpers

    The development follows three TypeScript sources:
    - [firstNonNullValue] (grouping helpers),
    - the bfetch server plugin: [addStreamingResponseRoute],
      [addBatchProcessingRoute] and its [getResponseStream],
    - the last stage of the fleet [getListHandler].

    JavaScript values are an inductive type, exceptions are explicit
    results, and the asynchronous part of [getResponseStream] is a
    transition system whose events are the settlements of the promises
    returned by [onBatchItem]. *)

From stdpp Require Import gmap strings list sorting.
From Stdlib Require Import ZArith Lia.

Set Warnings "-register-all".

Local Open Scope string_scope.
Local Open Scope list_scope.
Local Open Scope Z_scope.

(** ** JavaScript values *)

(** The values a request body, a batch item or a result can be.  The numbers
    the modelled code computes with (indices, counters, millisecond
    timestamps) are integers, so [JNum] carries a [Z]. Objects keep their
    keys in insertion order. *)
Inductive JsVal : Type :=
  | JUndefined
  | JNull
  | JBool (b : bool)
  | JNum (n : Z)
  | JStr (s : string)
  | JArr (items : list JsVal)
  | JObj (fields : list (string * JsVal)).

#[global] Instance JsVal_inhabited : Inhabited JsVal := populate JUndefined.

(** [v === null] *)
Definition is_null (v : JsVal) : bool :=
  match v with JNull => true | _ => false end.

(** [Array.isArray(v)] *)
Definition isArray (v : JsVal) : bool :=
  match v with JArr _ => true | _ => false end.

(** Own-property lookup in an object literal. *)
Fixpoint assoc (key : string) (fields : list (string * JsVal)) : option JsVal :=
  match fields with
  | [] => None
  | (k, v) :: rest => if String.eqb k key then Some v else assoc key rest
  end.

(** What a [throw] carries. *)
Inductive Thrown : Type :=
  | TypeError                       (* raised by the engine itself *)
  | ErrorObject (message : string)  (* [new Error(message)] *)
  | ThrownValue (v : JsVal).        (* any other value *)

(** ** [firstNonNullValue] *)

(** The [for (const value of valueOrCollection)] loop with its early
    [return]; falling off the end of the function yields [undefined]. *)
Fixpoint firstNonNull_loop (values : list JsVal) : JsVal :=
  match values with
  | [] => JUndefined
  | value :: rest => if is_null value then firstNonNull_loop rest else value
  end.

Definition firstNonNullValue (valueOrCollection : JsVal) : JsVal :=
  match valueOrCollection with
  | JNull => JUndefined
  | JArr values => firstNonNull_loop values
  | other => other
  end.

Example firstNonNullValue_hi :
  firstNonNullValue (JArr [JNull; JStr "hi"; JStr "there"]) = JStr "hi".
Proof. reflexivity. Qed.

Example firstNonNullValue_nulls :
  firstNonNullValue (JArr [JNull; JNull]) = JUndefined.
Proof. reflexivity. Qed.

Lemma firstNonNull_loop_nulls (values : list JsVal) :
  Forall (λ v, is_null v = true) values → firstNonNull_loop values = JUndefined.
Proof.
  induction 1 as [|v vs Hv _ IH]; simpl; [done|]. by rewrite Hv.
Qed.

Lemma firstNonNull_loop_first (nulls : list JsVal) (v : JsVal) (rest : list JsVal) :
  Forall (λ w, is_null w = true) nulls → is_null v = false →
  firstNonNull_loop (nulls ++ v :: rest) = v.
Proof.
  intros Hnulls Hv. induction Hnulls as [|w ws Hw _ IH]; simpl.
  - by rewrite Hv.
  - by rewrite Hw.
Qed.

(** C9. [firstNonNullValue] is a total function: [null] and [undefined] give
    [undefined]; an array gives its first element that is not [null], and
    [undefined] when it is empty or holds only [null]s; every other value is
    returned unchanged. *)
Theorem firstNonNullValue_spec :
  firstNonNullValue JNull = JUndefined ∧
  firstNonNullValue JUndefined = JUndefined ∧
  firstNonNullValue (JArr []) = JUndefined ∧
  (∀ values, Forall (λ v, is_null v = true) values →
     firstNonNullValue (JArr values) = JUndefined) ∧
  (∀ nulls v rest, Forall (λ w, is_null w = true) nulls → is_null v = false →
     firstNonNullValue (JArr (nulls ++ v :: rest)) = v) ∧
  (∀ v, is_null v = false → isArray v = false → firstNonNullValue v = v).
Proof.
  repeat split; try reflexivity.
  - intros values H. by apply firstNonNull_loop_nulls.
  - intros nulls v rest Hn Hv. by apply firstNonNull_loop_first.
  - intros [] ? ?; done.
Qed.

(** ** Promises, synchronous completions and the call log *)

(** How the promise returned by [onBatchItem] settles. *)
Inductive Settled : Type :=
  | Fulfilled (result : JsVal)
  | Rejected (err : Thrown).

(** How a synchronous call ends. *)
Inductive Completion (A : Type) : Type :=
  | Return (a : A)
  | Throw (err : Thrown).
Arguments Return {A} a.
Arguments Throw {A} err.

(** A computation together with the arguments [onBatchItem] was called
    with while it ran, in call order. *)
Definition Traced (A : Type) : Type := (list JsVal * A)%type.

Definition calls {A} (t : Traced A) : list JsVal := t.1.
Definition outcome {A} (t : Traced A) : A := t.2.

(** ** Response items and the RxJS subject *)

(** Modelled from the spec: the [ErrorLike] interface is declared in
    [../common], which is not among the sources; the spec describes it as a
    mapping with at least a message field. *)
Record ErrorLike : Type := { message : string; more : list (string * JsVal) }.

(** The object literals [{ id, result }] and [{ id, error }]. *)
Inductive BatchResponseItem : Type :=
  | ResultItem (id : nat) (result : JsVal)
  | ErrorItem (id : nat) (error : ErrorLike).

Definition item_id (r : BatchResponseItem) : nat :=
  match r with ResultItem id _ | ErrorItem id _ => id end.



(** An RxJS [Subject]: the values passed on to its observers so far, and
    whether [complete] has been signalled. A stopped subject ignores [next]. *)
Record Subject : Type := { emitted : list BatchResponseItem; isStopped : bool }.

Definition newSubject : Subject := {| emitted := []; isStopped := false |}.

Definition next (value : BatchResponseItem) (s : Subject) : Subject :=
  if isStopped s then s
  else {| emitted := emitted s ++ [value]; isStopped := false |}.

Definition complete (s : Subject) : Subject :=
  {| emitted := emitted s; isStopped := true |}.

(** ** The multiplexer *)

(** What [getResponseStream] leaves behind when it returns: the subject, the
    counter [cnt], and the callbacks of [batch.forEach] suspended at their
    [await], each with its index [id] and the promise it waits for. *)
Record Multiplexer : Type :=
  { subject : Subject; cnt : Z; awaiting : gmap nat Settled }.

(** [onBatchItem: (data) => Promise<BatchItemResult>]: the promise it returns
    is represented by the way it settles. A promise that never settles is an
    index that never shows up in the completion order below. *)
Record BatchProcessingRouteParams : Type :=
  { onBatchItem : JsVal → Settled }.

Record KibanaRequest : Type := { body : JsVal }.

(** [payload.batch] once [payload] is known not to be [null] or [undefined]. *)
Definition get_batch (payload : JsVal) : JsVal :=
  match payload with
  | JObj fields => default JUndefined (assoc "batch" fields)
  | _ => JUndefined
  end.

Section Bfetch.

(** Modelled from the spec: [normalizeError] is imported from [../common],
    which is not among the sources. The spec says it turns a failure into an
    [ErrorLike] and that the same failure always gives the same record: a
    function from thrown values to [ErrorLike]. *)
Variable normalizeError : Thrown → ErrorLike.

(** The body of the [async (batchItem, id) => ...] callback after its
    [await]: [try]/[catch] emit the item, [finally] counts down and
    completes the subject when the counter is [0]. *)
Definition resume (id : nat) (promise : Settled) (st : Multiplexer) : Multiplexer :=
  let s :=
    match promise with
    | Fulfilled result => next (ResultItem id result) (subject st)
    | Rejected err =>
        let error := normalizeError err in
        next (ErrorItem id error) (subject st)
    end in
  let cnt' := cnt st - 1 in
  {| subject := if cnt' =? 0 then complete s else s;
     cnt := cnt';
     awaiting := delete id (awaiting st) |}.

(** The event "the promise of item [id] settles": its callback, if it is
    still suspended, runs to its end. *)
Definition settle (id : nat) (st : Multiplexer) : Multiplexer :=
  match awaiting st !! id with
  | Some promise => resume id promise st
  | None => st
  end.

(** A completion order is the list of indices in the order their promises
    settle; the event loop runs the callbacks in that order, each to its
    end. *)
Definition run (order : list nat) (st : Multiplexer) : Multiplexer :=
  foldl (λ st id, settle id st) st order.

(** The multiplexer once [batch.forEach] has gone through an array: a fresh
    subject, [cnt = batch.length], and one suspended callback per index,
    waiting for the promise [onBatchItem(batchItem)] returned. *)
Definition start (handlerInstance : BatchProcessingRouteParams) (items : list JsVal)
    : Multiplexer :=
  {| subject := newSubject;
     cnt := Z.of_nat (length items);
     awaiting := map_seq 0 (onBatchItem handlerInstance <$> items) |}.

(** [getResponseStream: ({ batch }) => ...]. Destructuring [null] or
    [undefined], reading [length] of [null] or [undefined], and calling a
    [forEach] that is not a function raise a [TypeError]. On an array,
    [forEach] calls [onBatchItem] on every item in turn. *)
Definition getResponseStream (handlerInstance : BatchProcessingRouteParams)
    (payload : JsVal) : Traced (Completion Multiplexer) :=
  match payload with
  | JUndefined | JNull => ([], Throw TypeError)
  | _ =>
    let batch := get_batch payload in
    match batch with
    | JUndefined | JNull => ([], Throw TypeError)
    | JArr items => (items, Return (start handlerInstance items))
    | _ => ([], Throw TypeError)
    end
  end.

(** The request body [{ batch: items }]. *)
Definition batch_payload (items : list JsVal) : JsVal := JObj [("batch", JArr items)].

Lemma getResponseStream_on_batch (h : BatchProcessingRouteParams) (items : list JsVal) :
  getResponseStream h (batch_payload items) = (items, Return (start h items)).
Proof. reflexivity. Qed.

(** The item a callback emits for its index and the way its promise
    settled, and the item of index [id] of a batch. *)
Definition responseItem (id : nat) (promise : Settled) : BatchResponseItem :=
  match promise with
  | Fulfilled result => ResultItem id result
  | Rejected err => ErrorItem id (normalizeError err)
  end.

Definition attempt (h : BatchProcessingRouteParams) (items : list JsVal) (id : nat)
    : BatchResponseItem :=
  responseItem id (onBatchItem h (items !!! id)).

(** *** Running the multiplexer *)

Example run_two_items :
  let h := {| onBatchItem := λ x, match x with JNum 0 => Rejected TypeError | _ => Fulfilled x end |} in
  let st := run [1; 0]%nat (start h [JNum 0; JNum 7]) in
  emitted (subject st) = [ResultItem 1 (JNum 7); ErrorItem 0 (normalizeError TypeError)]
  ∧ isStopped (subject st) = true ∧ cnt st = 0.
Proof. vm_compute. done. Qed.

Lemma run_snoc (order : list nat) (id : nat) (st : Multiplexer) :
  run (order ++ [id]) st = settle id (run order st).
Proof. unfold run. by rewrite foldl_app. Qed.

Lemma resume_open (id : nat) (promise : Settled) (st : Multiplexer) :
  isStopped (subject st) = false →
  emitted (subject (resume id promise st)) = emitted (subject st) ++ [responseItem id promise] ∧
  isStopped (subject (resume id promise st)) = (cnt st - 1 =? 0) ∧
  cnt (resume id promise st) = cnt st - 1 ∧
  awaiting (resume id promise st) = delete id (awaiting st).
Proof.
  intros Hopen. unfold resume, next. rewrite Hopen.
  destruct promise; simpl; destruct (cnt st - 1 =? 0); done.
Qed.

(** Distinct indices below [n] are at most [n]. *)
Lemma order_length_le (n : nat) (order : list nat) :
  NoDup order → Forall (λ id, (id < n)%nat) order → (length order ≤ n)%nat.
Proof.
  intros Hnd Hlt.
  assert (order ⊆+ seq 0 n) as Hsub.
  { apply NoDup_submseteq; [done|]. intros id Hid.
    rewrite Forall_forall in Hlt. apply elem_of_seq. specialize (Hlt id Hid). lia. }
  apply submseteq_length in Hsub. by rewrite length_seq in Hsub.
Qed.

(** The state after a completion order, field by field. *)
Lemma run_start (h : BatchProcessingRouteParams) (items : list JsVal) (order : list nat) :
  NoDup order → Forall (λ id, (id < length items)%nat) order →
  emitted (subject (run order (start h items))) = attempt h items <$> order ∧
  isStopped (subject (run order (start h items)))
    = bool_decide (order ≠ [] ∧ length order = length items) ∧
  cnt (run order (start h items)) = Z.of_nat (length items) - Z.of_nat (length order) ∧
  ∀ id, awaiting (run order (start h items)) !! id
        = if decide (id ∈ order) then None else onBatchItem h <$> items !! id.
Proof.
  induction order as [|id order IH] using rev_ind; intros Hnd Hlt.
  - simpl. repeat split.
    + lia.
    + intros id. by rewrite lookup_map_seq_0, list_lookup_fmap.
  - pose proof (order_length_le _ _ Hnd Hlt) as Hlen.
    rewrite length_app in Hlen. simpl in Hlen.
    apply NoDup_app in Hnd as (Hnd & Hfresh & _).
    apply Forall_app in Hlt as [Hlt Hid].
    rewrite Forall_singleton in Hid.
    destruct (IH Hnd Hlt) as (Hem & Hst & Hcnt & Haw). clear IH.
    assert (id ∉ order) as Hnotin.
    { intros Hin. apply (Hfresh id Hin). by apply list_elem_of_singleton. }
    destruct (lookup_lt_is_Some_2 items id Hid) as [x Hx].
    rewrite run_snoc. unfold settle.
    rewrite Haw, decide_False, Hx by done. cbn [fmap option_fmap option_map].
    assert (isStopped (subject (run order (start h items))) = false) as Hopen.
    { rewrite Hst. apply bool_decide_eq_false_2. intros [_ ?]. lia. }
    destruct (resume_open id (onBatchItem h x) _ Hopen) as (Hem' & Hst' & Hcnt' & Haw').
    rewrite Hem', Hst', Hcnt', Haw', Hem, Hcnt, length_app, fmap_app. simpl.
    assert (attempt h items id = responseItem id (onBatchItem h x)) as ->.
    { unfold attempt. by rewrite (list_lookup_total_correct _ _ _ Hx). }
    repeat split.
    + destruct (Z.eqb_spec (Z.of_nat (length items) - Z.of_nat (length order) - 1) 0) as [Hz|Hz];
        symmetry.
      * apply bool_decide_eq_true_2. split; [by destruct order|lia].
      * apply bool_decide_eq_false_2. intros [_ ?]. lia.
    + lia.
    + intros j. destruct (decide (j = id)) as [->|Hne].
      * rewrite lookup_delete_eq. rewrite decide_True; [done|]. apply elem_of_app. right. by apply list_elem_of_singleton.
      * rewrite lookup_delete_ne by done. rewrite Haw.
        destruct (decide (j ∈ order)) as [Hj|Hj].
        -- rewrite decide_True; [done|]. apply elem_of_app. by left.
        -- rewrite decide_False; [done|]. rewrite elem_of_app, list_elem_of_singleton. tauto.
Qed.

(** A completion order in which every item of a batch of [n] completes. *)
Lemma complete_order_valid (n : nat) (order : list nat) :
  order ≡ₚ seq 0 n →
  NoDup order ∧ Forall (λ id, (id < n)%nat) order ∧ length order = n.
Proof.
  intros Hperm. repeat split.
  - rewrite Hperm. apply NoDup_seq.
  - rewrite Hperm. apply Forall_seq. intros; lia.
  - by rewrite Hperm, length_seq.
Qed.

Lemma item_id_attempt (h : BatchProcessingRouteParams) (items : list JsVal) (id : nat) :
  item_id (attempt h items id) = id.
Proof. unfold attempt, responseItem. by destruct (onBatchItem h _). Qed.

Lemma attempt_lookup (h : BatchProcessingRouteParams) (items : list JsVal) (id : nat) (x : JsVal) :
  items !! id = Some x → attempt h items id = responseItem id (onBatchItem h x).
Proof. intros Hx. unfold attempt. by rewrite (list_lookup_total_correct _ _ _ Hx). Qed.


(** With no callback waiting, no event changes the multiplexer. *)
Lemma run_empty (h : BatchProcessingRouteParams) (order : list nat) :
  run order (start h []) = start h [].
Proof.
  induction order as [|id order IH] using rev_ind; [done|].
  rewrite run_snoc, IH. unfold settle, start. simpl. by rewrite lookup_empty.
Qed.

(** While an item is still to complete, the subject is not completed; once
    all [N ≥ 1] items have completed, it is. *)
Lemma open_before_last (h : BatchProcessingRouteParams) (items : list JsVal)
    (done rest : list nat) :
  done ++ rest ≡ₚ seq 0 (length items) → rest ≠ [] →
  isStopped (subject (run done (start h items))) = false.
Proof.
  intros Hperm Hrest.
  destruct (complete_order_valid _ _ Hperm) as (Hnd & Hlt & Hlen).
  apply NoDup_app in Hnd as (Hnd & _ & _).
  apply Forall_app in Hlt as [Hlt _].
  destruct (run_start h items done Hnd Hlt) as (_ & Hst & _ & _).
  rewrite Hst. apply bool_decide_eq_false_2. intros [_ Hdone].
  rewrite length_app in Hlen. destruct rest; [done|]. simpl in Hlen. lia.
Qed.

Lemma closed_after_last (h : BatchProcessingRouteParams) (items : list JsVal)
    (order : list nat) :
  order ≡ₚ seq 0 (length items) → items ≠ [] →
  isStopped (subject (run order (start h items))) = true.
Proof.
  intros Hperm Hitems.
  destruct (complete_order_valid _ _ Hperm) as (Hnd & Hlt & Hlen).
  destruct (run_start h items order Hnd Hlt) as (_ & Hst & _ & _).
  rewrite Hst. apply bool_decide_eq_true_2. split; [|done].
  intros ->. by destruct items.
Qed.

(** The invariant of the multiplexer along any completion order: the ids
    emitted are distinct and below [N], at most [N] items are emitted, [cnt]
    counts the items still to complete, and the subject is completed exactly
    when the counter has come down to [0] from a positive [N]. *)
Lemma multiplexer_invariant (h : BatchProcessingRouteParams) (items : list JsVal)
    (order : list nat) :
  NoDup order → Forall (λ id, (id < length items)%nat) order →
  NoDup (item_id <$> emitted (subject (run order (start h items)))) ∧
  Forall (λ r, (item_id r < length items)%nat) (emitted (subject (run order (start h items)))) ∧
  (length (emitted (subject (run order (start h items)))) ≤ length items)%nat ∧
  cnt (run order (start h items))
    = Z.of_nat (length items) - Z.of_nat (length (emitted (subject (run order (start h items))))) ∧
  (isStopped (subject (run order (start h items))) = true ↔
     length (emitted (subject (run order (start h items)))) = length items ∧ items ≠ []).
Proof.
  intros Hnd Hlt.
  destruct (run_start h items order Hnd Hlt) as (Hem & Hst & Hcnt & _).
  assert (item_id <$> (attempt h items <$> order) = order) as Hids.
  { rewrite <- list_fmap_compose. rewrite <- (list_fmap_id order) at 2.
    apply list_fmap_ext. intros _ id _. apply item_id_attempt. }
  rewrite Hem, Hids, length_fmap, Hst, bool_decide_eq_true.
  split; [done|]. split; [|split; [by apply order_length_le|split; [done|split]]].
  - apply Forall_fmap. eapply Forall_impl; [exact Hlt|].
    intros id Hid. simpl. by rewrite item_id_attempt.
  - intros [Hne Hlen]. split; [done|]. intros ->. by destruct order.
  - intros [Hlen Hne]. split; [|done]. intros ->. by destruct items.
Qed.

(** C1. The invariant at the empty batch: in every state the multiplexer
    reaches, all [N = 0] response items have been emitted, and [complete]
    has not been signalled. *)
Theorem empty_batch_all_emitted_not_closed (h : BatchProcessingRouteParams) (order : list nat) :
  length (emitted (subject (run order (start h [])))) = length (@nil JsVal) ∧
  isStopped (subject (run order (start h []))) = false.
Proof. by rewrite run_empty. Qed.

(** C2. On the empty batch [getResponseStream] calls no handler and returns
    a subject that has emitted nothing and is not completed, with [cnt = 0]
    and no callback waiting; no later event completes it. *)
Theorem empty_batch_never_completes (h : BatchProcessingRouteParams) (order : list nat) :
  getResponseStream h (batch_payload []) = ([], Return (start h [])) ∧
  emitted (subject (start h [])) = [] ∧
  isStopped (subject (start h [])) = false ∧
  cnt (start h []) = 0 ∧
  awaiting (start h []) = ∅ ∧
  run order (start h []) = start h [].
Proof. repeat split. apply run_empty. Qed.


(** C4. Items are emitted in the order in which their promises settle: the
    ids of the emitted items, read in emission order, are the completion
    order; an item that completes before another one is emitted before it;
    and every emitted item is the one of the input index its [id] names. *)
Theorem emission_follows_completion (h : BatchProcessingRouteParams) (items : list JsVal)
    (order : list nat) :
  NoDup order → Forall (λ id, (id < length items)%nat) order →
  item_id <$> emitted (subject (run order (start h items))) = order ∧
  (∀ s1 j s2 i s3, order = s1 ++ j :: s2 ++ i :: s3 →
     ∃ rj ri,
       emitted (subject (run order (start h items)))
         = (attempt h items <$> s1) ++ rj :: (attempt h items <$> s2) ++ ri
             :: (attempt h items <$> s3)
       ∧ item_id rj = j ∧ item_id ri = i) ∧
  (∀ r, r ∈ emitted (subject (run order (start h items))) →
     ∃ x, items !! item_id r = Some x ∧ r = responseItem (item_id r) (onBatchItem h x)).
Proof.
  intros Hnd Hlt.
  destruct (run_start h items order Hnd Hlt) as (Hem & _ & _ & _).
  rewrite Hem. repeat split.
  - rewrite <- list_fmap_compose. rewrite <- (list_fmap_id order) at 2.
    apply list_fmap_ext. intros _ id _. apply item_id_attempt.
  - intros s1 j s2 i s3 ->.
    exists (attempt h items j), (attempt h items i).
    rewrite !item_id_attempt. repeat split.
    by rewrite fmap_app, fmap_cons, fmap_app, fmap_cons.
  - intros r Hr. apply list_elem_of_fmap in Hr as (id & -> & Hid).
    rewrite Forall_forall in Hlt.
    destruct (lookup_lt_is_Some_2 items id (Hlt id Hid)) as [x Hx].
    exists x. rewrite item_id_attempt. split; [done|]. by apply attempt_lookup.
Qed.

(** C6. The batch [[1, 0, 2]] with a handler that yields [10] for [1], [5]
    for [2] and fails for [0]: whatever the completion order, the items
    emitted are [{id:0, result:10}], [{id:1, error}] with the normalised
    error, which has a message, and [{id:2, result:5}], in some order; the
    subject is completed after these three items and not before. *)
Theorem scenario_ten_over_x (h : BatchProcessingRouteParams) (err : Thrown)
    (order : list nat) :
  onBatchItem h (JNum 1) = Fulfilled (JNum 10) →
  onBatchItem h (JNum 0) = Rejected err →
  onBatchItem h (JNum 2) = Fulfilled (JNum 5) →
  order ≡ₚ [0; 1; 2]%nat →
  emitted (subject (run order (start h [JNum 1; JNum 0; JNum 2])))
    ≡ₚ [ResultItem 0 (JNum 10); ErrorItem 1 (normalizeError err); ResultItem 2 (JNum 5)] ∧
  length (emitted (subject (run order (start h [JNum 1; JNum 0; JNum 2])))) = 3%nat ∧
  isStopped (subject (run order (start h [JNum 1; JNum 0; JNum 2]))) = true ∧
  (∀ done rest, order = done ++ rest → rest ≠ [] →
     isStopped (subject (run done (start h [JNum 1; JNum 0; JNum 2]))) = false).
Proof.
  intros H1 H0 H2 Hperm.
  destruct (complete_order_valid 3 _ Hperm) as (Hnd & Hlt & Hlen).
  destruct (run_start h [JNum 1; JNum 0; JNum 2] order Hnd Hlt) as (Hem & _ & _ & _).
  rewrite Hem, length_fmap. repeat split.
  - rewrite Hperm. unfold attempt. simpl. by rewrite H1, H0, H2.
  - done.
  - by apply closed_after_last.
  - intros done rest -> Hrest. by apply open_before_last with rest.
Qed.


End Bfetch.

(** *** The model on concrete batches *)

(** A normaliser to run the multiplexer with: the message of an [Error], and
    a fixed message for anything else. *)
Definition messageOf (err : Thrown) : ErrorLike :=
  match err with
  | ErrorObject text => {| message := text; more := [] |}
  | _ => {| message := "Unknown error."; more := [] |}
  end.

(** The handler of the scenario of the spec, [x => 10 / x], which fails on
    [0]. The quotient is exact on the divisors of [10], which are the only
    numbers it is used on. *)
Definition ten_over : BatchProcessingRouteParams :=
  {| onBatchItem := λ x,
       match x with
       | JNum n => if n =? 0 then Rejected (ErrorObject "Division by zero")
                   else Fulfilled (JNum (10 / n))
       | _ => Rejected TypeError
       end |}.


Lemma emission_follows_completion_witness :
  item_id <$> emitted (subject (run messageOf [1; 0]%nat (start ten_over [JNum 5; JNum 0])))
  = [1; 0]%nat.
Proof.
  destruct (emission_follows_completion messageOf ten_over [JNum 5; JNum 0] [1; 0]%nat)
    as (Hids & _ & _).
  - compute_done.
  - compute_done.
  - exact Hids.
Defined.

Lemma scenario_ten_over_x_witness :
  emitted (subject (run messageOf [1; 2; 0]%nat (start ten_over [JNum 1; JNum 0; JNum 2])))
    ≡ₚ [ResultItem 0 (JNum 10); ErrorItem 1 (messageOf (ErrorObject "Division by zero"));
        ResultItem 2 (JNum 5)] ∧
  isStopped (subject (run messageOf [1; 2; 0]%nat (start ten_over [JNum 1; JNum 0; JNum 2])))
    = true.
Proof.
  destruct (scenario_ten_over_x messageOf ten_over (ErrorObject "Division by zero")
              [1; 2; 0]%nat) as (Hitems & _ & Hclosed & _).
  - reflexivity.
  - reflexivity.
  - reflexivity.
  - compute_done.
  - split; [exact Hitems|exact Hclosed].
Defined.


(** ** The route binding layer *)

(** [StreamingResponseHandler<Payload, Response>], an interface with the one
    method [getResponseStream]: from the payload to the stream of responses,
    here of any type [S]. *)
Definition StreamingResponseHandler (S : Type) : Type :=
  JsVal → Traced (Completion S).

(** The stream handed to [response.ok] as the body. *)
Record NDJSONStream (S : Type) : Type := { source : S }.
Arguments source {S} _.

(** Modelled from the spec: [createNDJSONStream] is imported from
    [./streaming], which is not among the sources. By sections 4.3 and 4.4 of
    the spec the route layer feeds the output of the multiplexer through the
    encoder into the response body: the encoder asks the handler for its
    response stream and writes one line per item of it, ending when it
    closes. The logger it is also given plays no role here and is left out. *)
Definition createNDJSONStream {S : Type} (payload : JsVal)
    (handler : StreamingResponseHandler S) : Traced (Completion (NDJSONStream S)) :=
  let results := handler payload in
  match outcome results with
  | Return stream => (calls results, Return {| source := stream |})
  | Throw err => (calls results, Throw err)
  end.

Record HttpResponse (S : Type) : Type :=
  { status : Z;
    headers : list (string * string);
    response_body : NDJSONStream S }.
Arguments status {S} _.
Arguments headers {S} _.
Arguments response_body {S} _.

(** [response.ok({ headers, body })] *)
Definition response_ok {S : Type} (headers : list (string * string))
    (body : NDJSONStream S) : HttpResponse S :=
  {| status := 200; headers := headers; response_body := body |}.

(** [schema.any()] of [@kbn/config-schema], a package outside the sources:
    the schema without constraints. Like every schema without a default it is
    required, so it rejects [undefined]; it returns any other value as it
    is. *)
Definition schema_any (value : JsVal) : option JsVal :=
  match value with
  | JUndefined => None
  | _ => Some value
  end.

(** What [router.post] registers: the body validation of the route
    configuration and the request handler. The path of the route plays no
    role here and is left out. *)
Record Route (S : Type) : Type :=
  { validate_body : JsVal → option JsVal;
    route_handler : KibanaRequest → Traced (Completion (HttpResponse S)) }.
Arguments validate_body {S} _.
Arguments route_handler {S} _.

Definition addStreamingResponseRoute {S : Type}
    (handler : KibanaRequest → StreamingResponseHandler S) : Route S :=
  {| validate_body := schema_any;
     route_handler := λ request,
       let handlerInstance := handler request in
       let data := body request in
       let headers :=
         [("Content-Type", "application/x-ndjson");
          ("Connection", "keep-alive");
          ("Transfer-Encoding", "chunked");
          ("Cache-Control", "no-cache")] in
       let stream := createNDJSONStream data handlerInstance in
       match outcome stream with
       | Return body => (calls stream, Return (response_ok headers body))
       | Throw err => (calls stream, Throw err)
       end |}.

Definition addBatchProcessingRoute
    (handler : KibanaRequest → BatchProcessingRouteParams) : Route Multiplexer :=
  addStreamingResponseRoute
    (λ request,
       let handlerInstance := handler request in
       getResponseStream handlerInstance).

(** The batch of the payload is present and is a sequence. *)
Definition has_batch_sequence (payload : JsVal) : bool :=
  match payload with
  | JObj fields =>
      match assoc "batch" fields with
      | Some (JArr _) => true
      | _ => false
      end
  | _ => false
  end.

Example route_on_batch :
  let h := {| onBatchItem := Fulfilled |} in
  route_handler (addBatchProcessingRoute (λ _, h)) {| body := batch_payload [JNum 4; JNum 2] |}
  = ([JNum 4; JNum 2],
     Return {| status := 200;
               headers := [("Content-Type", "application/x-ndjson");
                           ("Connection", "keep-alive");
                           ("Transfer-Encoding", "chunked");
                           ("Cache-Control", "no-cache")];
               response_body := {| source := start h [JNum 4; JNum 2] |} |}).
Proof. reflexivity. Qed.

Lemma getResponseStream_malformed (h : BatchProcessingRouteParams) (payload : JsVal) :
  has_batch_sequence payload = false →
  getResponseStream h payload = ([], Throw TypeError).
Proof.
  intros Hbad. destruct payload as [| | | | | |fields]; try done.
  unfold getResponseStream, get_batch. simpl in Hbad.
  destruct (assoc "batch" fields) as [[]|]; done.
Qed.

Lemma getResponseStream_well_formed (h : BatchProcessingRouteParams) (payload : JsVal) :
  has_batch_sequence payload = true →
  ∃ items, get_batch payload = JArr items ∧
           getResponseStream h payload = (items, Return (start h items)).
Proof.
  intros Hok. destruct payload as [| | | | | |fields]; try done.
  unfold getResponseStream, get_batch. simpl in Hok.
  destruct (assoc "batch" fields) as [[]|]; try done. by eexists.
Qed.

Lemma well_formed_batch_is_served
    (handler : KibanaRequest → BatchProcessingRouteParams) (request : KibanaRequest) :
  has_batch_sequence (body request) = true →
  ∃ items response,
    get_batch (body request) = JArr items ∧
    route_handler (addBatchProcessingRoute handler) request = (items, Return response) ∧
    response_body response = {| source := start (handler request) items |}.
Proof.
  intros Hok.
  destruct (getResponseStream_well_formed (handler request) _ Hok) as (items & Hbatch & Hget).
  exists items. eexists. split; [done|].
  unfold addBatchProcessingRoute, addStreamingResponseRoute, createNDJSONStream. simpl.
  rewrite Hget. simpl. done.
Qed.

(** C5, as the code has it. A request whose batch is missing or is not a
    sequence is not rejected by the body validation of the route, unless it
    has no body at all; the route handler is entered and fails when it asks
    for the response stream: [getResponseStream] raises a [TypeError] before
    it calls [onBatchItem] on any item and before any subject exists, so
    that the handler raises and no response, hence no response item, is
    produced. *)
Theorem malformed_batch_fails_in_getResponseStream
    (handler : KibanaRequest → BatchProcessingRouteParams) (request : KibanaRequest) :
  has_batch_sequence (body request) = false →
  (body request ≠ JUndefined →
     validate_body (addBatchProcessingRoute handler) (body request) = Some (body request)) ∧
  getResponseStream (handler request) (body request) = ([], Throw TypeError) ∧
  route_handler (addBatchProcessingRoute handler) request = ([], Throw TypeError).
Proof.
  intros Hbad. repeat split.
  - intros Hbody. simpl. by destruct (body request).
  - by apply getResponseStream_malformed.
  - unfold addBatchProcessingRoute, addStreamingResponseRoute, createNDJSONStream. simpl.
    by rewrite getResponseStream_malformed.
Qed.

(** C7. Every response a streaming-response route produces has exactly the
    four headers, in this order, and as its body the stream made from the
    response stream of the handler. *)
Theorem streaming_response_headers {S : Type}
    (handler : KibanaRequest → StreamingResponseHandler S) (request : KibanaRequest)
    (log : list JsVal) (response : HttpResponse S) :
  route_handler (addStreamingResponseRoute handler) request = (log, Return response) →
  headers response
    = [("Content-Type", "application/x-ndjson");
       ("Connection", "keep-alive");
       ("Transfer-Encoding", "chunked");
       ("Cache-Control", "no-cache")] ∧
  ∃ stream, handler request (body request) = (log, Return stream) ∧
            response_body response = {| source := stream |}.
Proof.
  unfold addStreamingResponseRoute, createNDJSONStream, outcome, calls. simpl.
  destruct (handler request (body request)) as [cs [stream|err]]; simpl; intros Heq;
    [|done].
  injection Heq as <- <-. split; [done|]. by exists stream.
Qed.

(** C5, as stated, fails on the body [{}]: it has no batch, the body
    validation of the batch route lets it pass unchanged, and the failure is
    raised by [getResponseStream], called from the route handler. *)
Lemma empty_object_passes_validation :
  has_batch_sequence (JObj []) = false ∧
  validate_body (addBatchProcessingRoute (λ _, {| onBatchItem := Fulfilled |})) (JObj [])
    = Some (JObj []) ∧
  getResponseStream {| onBatchItem := Fulfilled |} (JObj []) = ([], Throw TypeError) ∧
  route_handler (addBatchProcessingRoute (λ _, {| onBatchItem := Fulfilled |}))
    {| body := JObj [] |} = ([], Throw TypeError).
Proof. repeat split. Qed.

Lemma malformed_batch_fails_in_getResponseStream_witness :
  validate_body (addBatchProcessingRoute (λ _, ten_over)) (JObj [("batch", JNum 3)])
    = Some (JObj [("batch", JNum 3)]) ∧
  route_handler (addBatchProcessingRoute (λ _, ten_over))
    {| body := JObj [("batch", JNum 3)] |} = ([], Throw TypeError).
Proof.
  destruct (malformed_batch_fails_in_getResponseStream (λ _, ten_over)
              {| body := JObj [("batch", JNum 3)] |}) as (Hvalid & _ & Hthrows).
  - reflexivity.
  - split; [apply Hvalid; discriminate|exact Hthrows].
Defined.

Lemma streaming_response_headers_witness :
  headers (response_ok
             [("Content-Type", "application/x-ndjson"); ("Connection", "keep-alive");
              ("Transfer-Encoding", "chunked"); ("Cache-Control", "no-cache")]
             {| source := start ten_over [JNum 2] |})
  = [("Content-Type", "application/x-ndjson"); ("Connection", "keep-alive");
     ("Transfer-Encoding", "chunked"); ("Cache-Control", "no-cache")].
Proof.
  destruct (streaming_response_headers (λ _, getResponseStream ten_over)
              {| body := batch_payload [JNum 2] |} [JNum 2]
              (response_ok
                 [("Content-Type", "application/x-ndjson"); ("Connection", "keep-alive");
                  ("Transfer-Encoding", "chunked"); ("Cache-Control", "no-cache")]
                 {| source := start ten_over [JNum 2] |})) as [Hheaders _].
  - reflexivity.
  - exact Hheaders.
Defined.

(** ** The last stage of [getListHandler] *)

Module Fleet.

Record Dashboard : Type := { id : string; title : string }.

Record DataStream : Type :=
  { index : string;
    dataset : string;
    namespace : string;
    type : string;
    package : string;
    package_version : string;
    last_activity_ms : Z;
    size_in_bytes : Z;
    dashboards : list Dashboard }.

Record GetDataStreamsResponse : Type := { data_streams : list DataStream }.

(** A string is truthy when it is not empty. *)
Definition truthy (s : string) : bool := negb (String.eqb s "").

(** [({ dataset, namespace, type }) => dataset && namespace && type], as
    [filter] reads it. *)
Definition has_all_fields (ds : DataStream) : bool :=
  truthy (dataset ds) && truthy (namespace ds) && truthy (type ds).

(** [(a, b) => b.last_activity_ms - a.last_activity_ms] *)
Definition by_last_activity (a b : DataStream) : Z :=
  last_activity_ms b - last_activity_ms a.

(** [Array.prototype.sort(comparefn)]. ECMAScript leaves the algorithm to the
    engine and fixes what it gives for a consistent [comparefn]: a permutation
    in which [a] does not come after [b] when [comparefn(a, b) < 0]. It is
    modelled by a merge sort that may leave [a] before [b] when
    [comparefn(a, b) <= 0]; nothing below rests on the order of elements that
    compare equal. *)
Definition sorts_before {A : Type} (comparefn : A → A → Z) (a b : A) : Prop :=
  comparefn a b ≤ 0.

#[global] Instance sorts_before_dec {A : Type} (comparefn : A → A → Z) :
  RelDecision (sorts_before comparefn).
Proof. intros a b. unfold sorts_before. apply _. Defined.

Definition Array_sort {A : Type} (comparefn : A → A → Z) (l : list A) : list A :=
  merge_sort (sorts_before comparefn) l.

(** How [getListHandler] ends: with [response.ok({ body })], or by handing the
    error it caught to [defaultIngestErrorHandler]. *)
Inductive HandlerResult : Type :=
  | ResponseOk (body : GetDataStreamsResponse)
  | IngestError (error : Thrown).

(** [getListHandler] from the point where the requests to the cluster and to
    the saved objects client have been answered: [gathered] is what
    [await Promise.all(dataStreamPromises)] gives, the data streams in the
    order of their names, or what was thrown in the [try] block up to there. *)
Definition getListHandler (gathered : Completion (list DataStream)) : HandlerResult :=
  match gathered with
  | Return dataStreamResponses =>
      ResponseOk
        {| data_streams :=
             Array_sort by_last_activity
               (List.filter has_all_fields dataStreamResponses) |}
  | Throw error => IngestError error
  end.

Definition stream (name ds ns ty : string) (ms : Z) : DataStream :=
  {| index := name; dataset := ds; namespace := ns; type := ty; package := "";
     package_version := ""; last_activity_ms := ms; size_in_bytes := 0;
     dashboards := [] |}.

Example getListHandler_three :
  getListHandler
    (Return [stream "logs-a-x" "a" "x" "logs" 5; stream "logs-b-x" "" "x" "logs" 9;
             stream "metrics-c-y" "c" "y" "metrics" 7])
  = ResponseOk {| data_streams := [stream "metrics-c-y" "c" "y" "metrics" 7;
                                   stream "logs-a-x" "a" "x" "logs" 5] |}.
Proof. vm_compute. reflexivity. Qed.

#[local] Instance by_last_activity_total : Total (sorts_before by_last_activity).
Proof. intros a b. unfold sorts_before, by_last_activity. lia. Qed.

#[local] Instance by_last_activity_trans : Transitive (sorts_before by_last_activity).
Proof. intros a b c. unfold sorts_before, by_last_activity. lia. Qed.


Lemma truthy_nonempty (s : string) : truthy s = true ↔ s ≠ "".
Proof.
  unfold truthy. rewrite negb_true_iff. destruct (String.eqb_spec s ""); split; congruence.
Qed.

Lemma has_all_fields_spec (ds : DataStream) :
  has_all_fields ds = true ↔ dataset ds ≠ "" ∧ namespace ds ≠ "" ∧ type ds ≠ "".
Proof.
  unfold has_all_fields. rewrite !andb_true_iff, !truthy_nonempty. tauto.
Qed.



End Fleet.

(** ** More on the multiplexer *)

Section Accounting.

Variable normalizeError : Thrown → ErrorLike.

Lemma size_map_seq {A : Type} (first : nat) (xs : list A) :
  size (map_seq first xs : gmap nat A) = length xs.
Proof.
  revert first. induction xs as [|x xs IH]; intros first; [apply map_size_empty|].
  rewrite map_seq_cons, map_size_insert_None, IH; [done|].
  apply lookup_map_seq_None. lia.
Qed.

(** The bookkeeping a state of the multiplexer of a batch of [n] satisfies:
    [cnt] is the number of callbacks still waiting, every item is either
    emitted or still waited for, and a completed subject has no callback
    waiting. *)
Definition accounted (n : nat) (st : Multiplexer) : Prop :=
  cnt st = Z.of_nat (size (awaiting st)) ∧
  (length (emitted (subject st)) + size (awaiting st) = n)%nat ∧
  (isStopped (subject st) = true → awaiting st = ∅).

Lemma accounted_start (h : BatchProcessingRouteParams) (items : list JsVal) :
  accounted (length items) (start h items).
Proof.
  unfold accounted, start. simpl. rewrite size_map_seq, length_fmap. done.
Qed.

Lemma accounted_settle (n id : nat) (st : Multiplexer) :
  accounted n st → accounted n (settle normalizeError id st).
Proof.
  intros (Hcnt & Hsum & Hstop). unfold settle.
  destruct (awaiting st !! id) as [promise|] eqn:Hid; [|done].
  assert (size (awaiting st) ≠ 0%nat) as Hsize.
  { apply map_size_non_empty_iff. intros Hempty. by rewrite Hempty, lookup_empty in Hid. }
  assert (isStopped (subject st) = false) as Hopen.
  { destruct (isStopped (subject st)); [|done].
    rewrite Hstop in Hid by done. by rewrite lookup_empty in Hid. }
  destruct (resume_open normalizeError id promise st Hopen) as (Hem & Hst & Hcnt' & Haw).
  unfold accounted. rewrite Hem, Hst, Hcnt', Haw, length_app, map_size_delete, Hid. simpl.
  repeat split; [lia|lia|].
  intros Hzero%Z.eqb_eq. apply map_size_empty_inv.
  rewrite map_size_delete, Hid. simpl. lia.
Qed.

Lemma accounted_run (n : nat) (order : list nat) (st : Multiplexer) :
  accounted n st → accounted n (run normalizeError order st).
Proof.
  intros Hst. induction order as [|id order IH] using rev_ind; [done|].
  rewrite run_snoc. by apply accounted_settle.
Qed.

(** Whatever promises settle, in whatever order and however often an index is
    named, even indices outside the batch: [cnt] is the number of callbacks
    still waiting, the items emitted and the callbacks waiting add up to [N],
    and the subject is not completed while a callback is waiting. *)
Theorem counter_matches_waiting (h : BatchProcessingRouteParams) (items : list JsVal)
    (order : list nat) :
  cnt (run normalizeError order (start h items))
    = Z.of_nat (size (awaiting (run normalizeError order (start h items)))) ∧
  (length (emitted (subject (run normalizeError order (start h items))))
   + size (awaiting (run normalizeError order (start h items))) = length items)%nat ∧
  (awaiting (run normalizeError order (start h items)) ≠ ∅ →
   isStopped (subject (run normalizeError order (start h items))) = false).
Proof.
  destruct (accounted_run (length items) order (start h items) (accounted_start h items))
    as (Hcnt & Hsum & Hstop).
  repeat split; [done|done|].
  intros Hwaiting. destruct (isStopped _); [|done]. by destruct Hwaiting; apply Hstop.
Qed.

Lemma subject_settle_stopped (id : nat) (st : Multiplexer) :
  isStopped (subject st) = true →
  subject (settle normalizeError id st) = subject st.
Proof.
  intros Hstopped. unfold settle. destruct (awaiting st !! id) as [promise|]; [|done].
  unfold resume, next. rewrite Hstopped. simpl.
  destruct promise; destruct (cnt st - 1 =? 0); unfold complete; simpl;
    destruct (subject st); simpl in *; by subst.
Qed.

Lemma emitted_settle_prefix (id : nat) (st : Multiplexer) :
  emitted (subject st) `prefix_of` emitted (subject (settle normalizeError id st)).
Proof.
  unfold settle. destruct (awaiting st !! id) as [promise|]; [|done].
  unfold resume, next. simpl.
  destruct promise; destruct (isStopped (subject st)); destruct (cnt st - 1 =? 0); simpl;
    try done; by apply prefix_app_r.
Qed.

(** From any state of the multiplexer on, the stream only grows: what has
    been emitted stays, in its order, at the front of what is emitted later;
    and once the subject is completed no event changes it: nothing is emitted
    after [complete]. *)
Theorem stream_only_grows (order : list nat) (st : Multiplexer) :
  emitted (subject st) `prefix_of` emitted (subject (run normalizeError order st)) ∧
  (isStopped (subject st) = true → subject (run normalizeError order st) = subject st).
Proof.
  induction order as [|id order [IHpre IHstop]] using rev_ind; [done|].
  rewrite run_snoc. split.
  - etrans; [exact IHpre|]. apply emitted_settle_prefix.
  - intros Hstopped. rewrite subject_settle_stopped; [by apply IHstop|].
    by rewrite IHstop.
Qed.

(** Once every item has completed, in whatever order, the items emitted are,
    up to their order, one response per item of the batch: for the item [x]
    at index [i], [{ id: i, result }] or [{ id: i, error }] as the promise of
    [onBatchItem(x)] settled. *)
Theorem one_response_per_item (h : BatchProcessingRouteParams) (items : list JsVal)
    (order : list nat) :
  order ≡ₚ seq 0 (length items) →
  emitted (subject (run normalizeError order (start h items)))
    ≡ₚ imap (λ i x, responseItem normalizeError i (onBatchItem h x)) items.
Proof.
  intros Hperm.
  destruct (complete_order_valid _ _ Hperm) as (Hnd & Hlt & _).
  destruct (run_start normalizeError h items order Hnd Hlt) as (Hem & _ & _ & _).
  rewrite Hem, Hperm.
  assert (attempt normalizeError h items <$> seq 0 (length items)
          = imap (λ i x, responseItem normalizeError i (onBatchItem h x)) items) as ->; [|done].
  apply list_eq. intros i.
  rewrite list_lookup_fmap, list_lookup_imap.
  destruct (items !! i) as [x|] eqn:Hx; simpl.
  - rewrite lookup_seq_lt by (by eapply lookup_lt_Some). simpl.
    by rewrite (attempt_lookup _ _ _ _ _ Hx).
  - rewrite lookup_seq_ge; [done|]. by apply lookup_ge_None.
Qed.

End Accounting.

Lemma multiplexer_invariant_witness :
  (isStopped (subject (run messageOf [2; 0]%nat (start ten_over [JNum 1; JNum 0; JNum 2]))) = true
   ↔ length (emitted (subject (run messageOf [2; 0]%nat (start ten_over [JNum 1; JNum 0; JNum 2]))))
       = 3%nat ∧ [JNum 1; JNum 0; JNum 2] ≠ []) ∧
  cnt (run messageOf [2; 0]%nat (start ten_over [JNum 1; JNum 0; JNum 2])) = 1.
Proof.
  destruct (multiplexer_invariant messageOf ten_over [JNum 1; JNum 0; JNum 2] [2; 0]%nat)
    as (_ & _ & _ & Hcnt & Hstopped).
  - compute_done.
  - compute_done.
  - split; [exact Hstopped|exact Hcnt].
Defined.

Lemma one_response_per_item_witness :
  emitted (subject (run messageOf [2; 0; 1]%nat (start ten_over [JNum 1; JNum 0; JNum 2])))
    ≡ₚ [ResultItem 0 (JNum 10); ErrorItem 1 (messageOf (ErrorObject "Division by zero"));
        ResultItem 2 (JNum 5)].
Proof.
  apply (one_response_per_item messageOf ten_over [JNum 1; JNum 0; JNum 2] [2; 0; 1]%nat).
  compute_done.
Defined.

(** ** More on [firstNonNullValue] *)

Lemma firstNonNull_loop_not_null (values : list JsVal) :
  is_null (firstNonNull_loop values) = false ∧
  (firstNonNull_loop values = JUndefined ∨ firstNonNull_loop values ∈ values).
Proof.
  induction values as [|v values [IHnull IHin]]; simpl; [by split; [|left]|].
  destruct (is_null v) eqn:Hv.
  - split; [done|]. destruct IHin as [?|?]; [by left|right; apply elem_of_cons; by right].
  - split; [done|]. right. apply elem_of_cons. by left.
Qed.

(** [firstNonNullValue] never returns [null], whatever it is given; on an
    array what it returns is [undefined] or an element of the array. *)
Theorem firstNonNullValue_never_null (valueOrCollection : JsVal) :
  is_null (firstNonNullValue valueOrCollection) = false ∧
  (∀ values, valueOrCollection = JArr values →
     firstNonNullValue valueOrCollection = JUndefined ∨
     firstNonNullValue valueOrCollection ∈ values).
Proof.
  split.
  - destruct valueOrCollection; try done. apply firstNonNull_loop_not_null.
  - intros values ->. apply firstNonNull_loop_not_null.
Qed.

(** ** The Zeek row renderer: [isInstance] *)

From Stdlib Require Import Ascii.

Module Zeek.

(** [String.prototype.toLowerCase] on the letters [A] to [Z]; every other
    character below 128 is left as it is. Characters from 128 on are outside
    this model. *)
Definition lower (c : ascii) : ascii :=
  let n := N_of_ascii c in
  if ((65 <=? n) && (n <=? 90))%N then ascii_of_N (n + 32) else c.

Fixpoint toLowerCase (s : string) : string :=
  match s with
  | EmptyString => EmptyString
  | String c rest => String (lower c) (toLowerCase rest)
  end.

Fixpoint is_ascii (s : string) : bool :=
  match s with
  | EmptyString => true
  | String c rest => (N_of_ascii c <? 128)%N && is_ascii rest
  end.

(** [object[key]] for a key that only a plain object can have. *)
Definition property (key : string) (object : JsVal) : JsVal :=
  match object with
  | JObj fields => default JUndefined (assoc key fields)
  | _ => JUndefined
  end.

(** [get('event.module', ecs)] of [lodash/fp]: the path is taken as one key
    when [ecs] has a property of that very name, and is followed key by key
    otherwise, giving [undefined] as soon as a key is missing. *)
Definition get_event_module (ecs : JsVal) : JsVal :=
  match ecs with
  | JObj fields =>
      match assoc "event.module" fields with
      | Some value => value
      | None => property "module" (property "event" ecs)
      end
  | _ => JUndefined
  end.

(** [isInstance]: [module != null && module.toLowerCase() === 'zeek'].
    A value without a [toLowerCase] method makes the call raise. *)
Definition isInstance (ecs : JsVal) : Completion bool :=
  let module := get_event_module ecs in
  match module with
  | JUndefined | JNull => Return false
  | JStr s => Return (String.eqb (toLowerCase s) "zeek")
  | _ => Throw TypeError
  end.

Example isInstance_Zeek :
  isInstance (JObj [("event", JObj [("module", JStr "Zeek")])]) = Return true.
Proof. reflexivity. Qed.

Example isInstance_suricata :
  isInstance (JObj [("event", JObj [("module", JStr "suricata")])]) = Return false.
Proof. reflexivity. Qed.

Example isInstance_no_event :
  isInstance (JObj [("source", JObj [("ip", JStr "192.168.0.3")])]) = Return false.
Proof. reflexivity. Qed.

Lemma lower_z (c : ascii) : lower c = "z"%char ↔ c = "z"%char ∨ c = "Z"%char.
Proof.
  split; [|by intros [->| ->]].
  destruct c as [[] [] [] [] [] [] [] []]; vm_compute; intros [=]; auto.
Qed.

Lemma lower_e (c : ascii) : lower c = "e"%char ↔ c = "e"%char ∨ c = "E"%char.
Proof.
  split; [|by intros [->| ->]].
  destruct c as [[] [] [] [] [] [] [] []]; vm_compute; intros [=]; auto.
Qed.

Lemma lower_k (c : ascii) : lower c = "k"%char ↔ c = "k"%char ∨ c = "K"%char.
Proof.
  split; [|by intros [->| ->]].
  destruct c as [[] [] [] [] [] [] [] []]; vm_compute; intros [=]; auto.
Qed.

Lemma toLowerCase_zeek (s : string) :
  toLowerCase s = "zeek" ↔
  ∃ c1 c2 c3 c4,
    s = String c1 (String c2 (String c3 (String c4 EmptyString))) ∧
    (c1 = "z"%char ∨ c1 = "Z"%char) ∧ (c2 = "e"%char ∨ c2 = "E"%char) ∧
    (c3 = "e"%char ∨ c3 = "E"%char) ∧ (c4 = "k"%char ∨ c4 = "K"%char).
Proof.
  split.
  - destruct s as [|c1 [|c2 [|c3 [|c4 [|c5 s]]]]]; simpl; intros [=].
    exists c1, c2, c3, c4. by rewrite <- lower_z, <- !lower_e, <- lower_k.
  - intros (c1 & c2 & c3 & c4 & -> & H1 & H2 & H3 & H4). simpl.
    apply lower_z in H1. apply lower_e in H2, H3. apply lower_k in H4.
    by rewrite H1, H2, H3, H4.
Qed.

(** [isInstance] on an event whose [event.module] is missing, [null] or a
    string never raises. It answers [false] when the module is missing or
    [null], and on a string it answers [true] exactly when the string is
    [zeek] in any mix of upper and lower case; a module that is neither
    missing, [null] nor a string makes it raise a [TypeError]. *)
Theorem isInstance_zeek_any_case (ecs : JsVal) :
  (get_event_module ecs = JUndefined ∨ get_event_module ecs = JNull →
     isInstance ecs = Return false) ∧
  (∀ s, get_event_module ecs = JStr s → is_ascii s = true →
     ∃ answer, isInstance ecs = Return answer ∧
       (answer = true ↔
        ∃ c1 c2 c3 c4,
          s = String c1 (String c2 (String c3 (String c4 EmptyString))) ∧
          (c1 = "z"%char ∨ c1 = "Z"%char) ∧ (c2 = "e"%char ∨ c2 = "E"%char) ∧
          (c3 = "e"%char ∨ c3 = "E"%char) ∧ (c4 = "k"%char ∨ c4 = "K"%char))) ∧
  (is_null (get_event_module ecs) = false → get_event_module ecs ≠ JUndefined →
   (∀ s, get_event_module ecs ≠ JStr s) → isInstance ecs = Throw TypeError).
Proof.
  unfold isInstance. repeat split.
  - by intros [-> | ->].
  - intros s -> _. eexists. split; [done|].
    rewrite <- toLowerCase_zeek. apply String.eqb_eq.
  - intros Hnull Hundef Hstr. destruct (get_event_module ecs); try done.
    by destruct (Hstr s).
Qed.

End Zeek.

(** ** [getListHandler]: from the saved objects to the list of data streams *)

Module FleetGather.
Import Fleet.

(** [{ id, type }], an entry of [installed_kibana]. *)
Record KibanaAssetReference : Type := { asset_id : string; asset_type : string }.

(** The attributes of a package saved object that the handler reads. *)
Record Installation : Type :=
  { installed_kibana : list KibanaAssetReference; version : string }.

Record PackageSavedObject : Type :=
  { pkg_id : string; attributes : option Installation }.

(** [{ id, type, fields }], an entry of the [bulkGet] request. *)
Record SavedObjectsBulkGetObject : Type :=
  { bulk_id : string; bulk_type : string; fields : list string }.

(** A dashboard saved object with its [attributes.title], which may be
    missing. *)
Record DashboardSavedObject : Type :=
  { dashboard_id : string; dashboard_title : option string }.

(** What [packageMetadata] holds for a package. *)
Record PackageMetadata : Type :=
  { meta_version : string; meta_dashboards : list Dashboard }.

(** What the handler reads of an entry of [dataStreams], the data stream info
    merged with its stats: [_meta?.package?.name], the names of the backing
    indices, [maximum_timestamp] and [store_size_bytes]. *)
Record MergedDataStream : Type :=
  { meta_package_name : option string;
    indices : list string;
    maximum_timestamp : Z;
    store_size_bytes : Z }.

(** The keys of the buckets of the three aggregations of the search. *)
Record Aggregations : Type :=
  { agg_dataset : list string; agg_namespace : list string; agg_type : list string }.

(** An object literal filled key by key: a key that is set again keeps its
    place, a new key goes to the end. (JavaScript lists keys that are array
    indices first; that changes the order of [Object.values] only.) *)
Fixpoint obj_set {V : Type} (key : string) (value : V) (object : list (string * V))
    : list (string * V) :=
  match object with
  | [] => [(key, value)]
  | (k, v) :: rest =>
      if String.eqb k key then (k, value) :: rest else (k, v) :: obj_set key value rest
  end.

Fixpoint obj_get {V : Type} (key : string) (object : list (string * V)) : option V :=
  match object with
  | [] => None
  | (k, v) :: rest => if String.eqb k key then Some v else obj_get key rest
  end.

(** [keyBy(collection, key)] of lodash: a later element replaces an earlier
    one of the same key. *)
Definition keyBy {A : Type} (key : A → string) (collection : list A) : gmap string A :=
  foldl (λ result value, <[key value := value]> result) ∅ collection.

(** [value || ''] and [buckets[0]?.key || ''] *)
Definition or_empty (value : option string) : string := default "" value.

Definition first_key (buckets : list string) : string := or_empty (head buckets).

Section Handler.

(** [KibanaSavedObjectType.dashboard], an enum member declared outside the
    sources. *)
Variable dashboardType : string.

(** The inner [forEach] of the reduce over the package saved objects: the ids
    of the installed assets that are dashboards. *)
Definition dashboardsOf (pkgSavedObject : PackageSavedObject) : list string :=
  foldl (λ dashboards o,
           if String.eqb (asset_type o) dashboardType then dashboards ++ [asset_id o]
           else dashboards)
        []
        (match attributes pkgSavedObject with
         | Some installation => installed_kibana installation
         | None => []
         end).

Definition dashboardIdsByPackageName (saved_objects : list PackageSavedObject)
    : list (string * list string) :=
  foldl (λ allDashboards pkgSavedObject,
           obj_set (pkg_id pkgSavedObject) (dashboardsOf pkgSavedObject) allDashboards)
        [] saved_objects.

(** The argument of [bulkGet]: [Object.values(dashboardIdsByPackageName)]
    reduced by [concat]. *)
Definition bulkGetRequest (saved_objects : list PackageSavedObject)
    : list SavedObjectsBulkGetObject :=
  foldl (λ allDashboards dashboardIds,
           allDashboards ++
           ((λ id, {| bulk_id := id; bulk_type := dashboardType; fields := ["title"] |})
              <$> dashboardIds))
        [] ((dashboardIdsByPackageName saved_objects).*2).

(** The three lookup tables the callbacks of [dataStreamNames.map] share.
    They are objects used as maps from names to values; the few names every
    object inherits ([constructor], [toString] and the like) are not package
    names or dashboard ids, and are outside this model. *)
Record Tables : Type :=
  { packageSavedObjectsByName : gmap string PackageSavedObject;
    dashboardIds : list (string * list string);
    allDashboardSavedObjectsById : gmap string DashboardSavedObject }.

Definition tables (saved_objects : list PackageSavedObject)
    (allDashboardSavedObjects : list DashboardSavedObject) : Tables :=
  {| packageSavedObjectsByName := keyBy pkg_id saved_objects;
     dashboardIds := dashboardIdsByPackageName saved_objects;
     allDashboardSavedObjectsById := keyBy dashboard_id allDashboardSavedObjects |}.

(** [dashboard.attributes.title || dashboard.id] *)
Definition title_or_id (dashboard : DashboardSavedObject) : string :=
  match dashboard_title dashboard with
  | Some text => if truthy text then text else dashboard_id dashboard
  | None => dashboard_id dashboard
  end.

(** The reduce that picks the dashboards of a package from the saved objects
    [bulkGet] returned. *)
Definition packageDashboards (t : Tables) (pkgName : string) : list Dashboard :=
  let packageDashboardIds := default [] (obj_get pkgName (dashboardIds t)) in
  foldl (λ dashboards dashboardId,
           match allDashboardSavedObjectsById t !! dashboardId with
           | Some dashboard =>
               dashboards ++ [{| id := dashboard_id dashboard; title := title_or_id dashboard |}]
           | None => dashboards
           end)
        [] packageDashboardIds.

(** What is stored in [packageMetadata] for a package. *)
Definition metadataOf (t : Tables) (pkgName : string) (pkgSavedObject : PackageSavedObject)
    : PackageMetadata :=
  {| meta_version := or_empty (version <$> attributes pkgSavedObject);
     meta_dashboards := packageDashboards t pkgName |}.

(** The callback of [dataStreamNames.map] for one data stream, once its
    search has been answered: the response of the data stream and the
    [packageMetadata] it leaves. *)
Definition resumeDataStream (t : Tables) (dataStreamName : string)
    (dataStream : MergedDataStream) (aggregations : Aggregations)
    (packageMetadata : gmap string PackageMetadata)
    : DataStream * gmap string PackageMetadata :=
  let pkgName := or_empty (meta_package_name dataStream) in
  let pkgSavedObject :=
    if truthy pkgName then packageSavedObjectsByName t !! pkgName else None in
  match pkgSavedObject with
  | Some pkgSavedObject =>
      let metadata :=
        match packageMetadata !! pkgName with
        | Some metadata => metadata
        | None => metadataOf t pkgName pkgSavedObject
        end in
      ({| index := dataStreamName;
          dataset := first_key (agg_dataset aggregations);
          namespace := first_key (agg_namespace aggregations);
          type := first_key (agg_type aggregations);
          package := pkgName;
          package_version := meta_version metadata;
          last_activity_ms := maximum_timestamp dataStream;
          size_in_bytes := store_size_bytes dataStream;
          dashboards := meta_dashboards metadata |},
       match packageMetadata !! pkgName with
       | Some _ => packageMetadata
       | None => <[pkgName := metadataOf t pkgName pkgSavedObject]> packageMetadata
       end)
  | None =>
      ({| index := dataStreamName;
          dataset := first_key (agg_dataset aggregations);
          namespace := first_key (agg_namespace aggregations);
          type := first_key (agg_type aggregations);
          package := pkgName;
          package_version := "";
          last_activity_ms := maximum_timestamp dataStream;
          size_in_bytes := store_size_bytes dataStream;
          dashboards := [] |},
       packageMetadata)
  end.

(** A data stream with the way its search ends. *)
Record Query : Type :=
  { q_name : string; q_stream : MergedDataStream; q_search : Completion Aggregations }.

(** The handler between [dataStreamNames.map] and the end of
    [Promise.all]: the shared [packageMetadata], the callbacks that wait for
    their search, the responses of those that returned, and the error of the
    first that raised. *)
Record Gathering : Type :=
  { packageMetadata : gmap string PackageMetadata;
    waiting : gmap nat Query;
    fulfilled : gmap nat DataStream;
    rejection : option Thrown }.

Definition dispatch (queries : list Query) : Gathering :=
  {| packageMetadata := ∅; waiting := map_seq 0 queries; fulfilled := ∅; rejection := None |}.

(** The event "the search of data stream [i] is answered". *)
Definition answer (t : Tables) (g : Gathering) (i : nat) : Gathering :=
  match waiting g !! i with
  | None => g
  | Some q =>
      match q_search q with
      | Return aggregations =>
          let r := resumeDataStream t (q_name q) (q_stream q) aggregations (packageMetadata g) in
          {| packageMetadata := r.2;
             waiting := delete i (waiting g);
             fulfilled := <[i := r.1]> (fulfilled g);
             rejection := rejection g |}
      | Throw error =>
          {| packageMetadata := packageMetadata g;
             waiting := delete i (waiting g);
             fulfilled := fulfilled g;
             rejection := match rejection g with
                          | Some first => Some first
                          | None => Some error
                          end |}
      end
  end.

(** [await Promise.all(dataStreamPromises)]: the error of the first promise
    that rejected; or the responses in the order of the data streams, once
    all are there; or nothing yet. *)
Definition gathered (n : nat) (g : Gathering) : option (Completion (list DataStream)) :=
  match rejection g with
  | Some error => Some (Throw error)
  | None => Return <$> mapM (λ i, fulfilled g !! i) (seq 0 n)
  end.

(** [getListHandler] from the tables on, for the order in which the searches
    are answered; [None] while it is still waiting. *)
Definition getListHandler_from (t : Tables) (queries : list Query) (order : list nat)
    : option HandlerResult :=
  getListHandler <$> gathered (length queries) (foldl (answer t) (dispatch queries) order).

(** The response of a data stream when [packageMetadata] is empty. *)
Definition dataStreamResponse (t : Tables) (q : Query) : option DataStream :=
  match q_search q with
  | Return aggregations =>
      Some (resumeDataStream t (q_name q) (q_stream q) aggregations ∅).1
  | Throw _ => None
  end.

(** *** The lookup tables *)

Lemma obj_get_set {V : Type} (key key' : string) (value : V) (object : list (string * V)) :
  obj_get key (obj_set key' value object)
  = if decide (key' = key) then Some value else obj_get key object.
Proof.
  induction object as [|[k v] object IH]; simpl.
  - destruct (String.eqb_spec key' key); by case_decide.
  - destruct (String.eqb_spec k key') as [->|Hk]; simpl.
    + destruct (String.eqb_spec key' key); by case_decide.
    + rewrite IH. destruct (String.eqb_spec k key) as [->|]; [|done].
      by rewrite decide_False by done.
Qed.

Lemma obj_set_fresh {V : Type} (key : string) (value : V) (object : list (string * V)) :
  key ∉ object.*1 → obj_set key value object = object ++ [(key, value)].
Proof.
  induction object as [|[k v] object IH]; csimpl; [done|].
  intros [Hne Hnotin]%not_elem_of_cons.
  destruct (String.eqb_spec k key) as [->|]; [done|]. f_equal. by apply IH.
Qed.

Lemma obj_set_keys {V : Type} (key : string) (value : V) (object : list (string * V)) :
  key ∈ object.*1 → (obj_set key value object).*1 = object.*1.
Proof.
  induction object as [|[k v] object IH]; csimpl; [by intros ?%not_elem_of_nil|].
  destruct (String.eqb_spec k key) as [->|Hne]; [done|]. csimpl.
  intros [?|Hin]%elem_of_cons; [congruence|]. f_equal. by apply IH.
Qed.

Lemma keyBy_snoc {A : Type} (key : A → string) (collection : list A) (value : A) :
  keyBy key (collection ++ [value]) = <[key value := value]> (keyBy key collection).
Proof. unfold keyBy. by rewrite foldl_app. Qed.

(** What [keyBy] finds under a key is an element of the collection with that
    key. *)
Lemma keyBy_lookup {A : Type} (key : A → string) (collection : list A) (k : string) (x : A) :
  keyBy key collection !! k = Some x → key x = k ∧ x ∈ collection.
Proof.
  induction collection as [|value collection IH] using rev_ind.
  - unfold keyBy. simpl. by rewrite lookup_empty.
  - rewrite keyBy_snoc, lookup_insert. case_decide as Hk.
    + intros [= <-]. split; [done|]. apply elem_of_app. right. by apply list_elem_of_singleton.
    + intros Hx. destruct (IH Hx) as [? ?]. split; [done|]. apply elem_of_app. by left.
Qed.

Lemma dashboardIdsByPackageName_snoc (saved_objects : list PackageSavedObject)
    (pkgSavedObject : PackageSavedObject) :
  dashboardIdsByPackageName (saved_objects ++ [pkgSavedObject])
  = obj_set (pkg_id pkgSavedObject) (dashboardsOf pkgSavedObject)
      (dashboardIdsByPackageName saved_objects).
Proof. unfold dashboardIdsByPackageName. by rewrite foldl_app. Qed.

(** The two tables made from the package saved objects agree: the dashboard
    ids filed under a package name are those of the saved object filed under
    that name. *)
Lemma dashboardIds_keyBy (saved_objects : list PackageSavedObject) (pkgName : string) :
  obj_get pkgName (dashboardIdsByPackageName saved_objects)
  = dashboardsOf <$> keyBy pkg_id saved_objects !! pkgName.
Proof.
  induction saved_objects as [|pkg saved_objects IH] using rev_ind; [done|].
  rewrite dashboardIdsByPackageName_snoc, keyBy_snoc, obj_get_set, lookup_insert.
  case_decide; [done|]. exact IH.
Qed.

Lemma foldl_push_if {A B : Type} (keep : A → bool) (f : A → B) (l : list A) (acc : list B) :
  foldl (λ pushed x, if keep x then pushed ++ [f x] else pushed) acc l
  = acc ++ (f <$> List.filter keep l).
Proof.
  revert acc. induction l as [|x l IH]; intros acc; simpl; [by rewrite app_nil_r|].
  rewrite IH. destruct (keep x); [|done]. by rewrite fmap_cons, <- app_assoc.
Qed.

Lemma dashboardsOf_filter (pkgSavedObject : PackageSavedObject) :
  dashboardsOf pkgSavedObject
  = asset_id <$> List.filter (λ o, String.eqb (asset_type o) dashboardType)
      (match attributes pkgSavedObject with
       | Some installation => installed_kibana installation
       | None => []
       end).
Proof. unfold dashboardsOf. by rewrite foldl_push_if. Qed.

Lemma foldl_push_found (t : Tables) (ids : list string) (acc : list Dashboard) :
  foldl (λ dashboards dashboardId,
           match allDashboardSavedObjectsById t !! dashboardId with
           | Some dashboard =>
               dashboards ++ [{| id := dashboard_id dashboard; title := title_or_id dashboard |}]
           | None => dashboards
           end) acc ids
  = acc ++ omap (λ dashboardId,
                   (λ dashboard,
                      {| id := dashboard_id dashboard; title := title_or_id dashboard |})
                     <$> allDashboardSavedObjectsById t !! dashboardId) ids.
Proof.
  revert acc. induction ids as [|dashboardId ids IH]; intros acc; simpl; [by rewrite app_nil_r|].
  rewrite IH. destruct (allDashboardSavedObjectsById t !! dashboardId); simpl; [|done].
  by rewrite <- app_assoc.
Qed.

Lemma packageDashboards_omap (t : Tables) (pkgName : string) :
  packageDashboards t pkgName
  = omap (λ dashboardId,
            (λ dashboard, {| id := dashboard_id dashboard; title := title_or_id dashboard |})
              <$> allDashboardSavedObjectsById t !! dashboardId)
         (default [] (obj_get pkgName (dashboardIds t))).
Proof. unfold packageDashboards. by rewrite foldl_push_found. Qed.

(** *** The [bulkGet] request *)

Lemma foldl_concat {A B : Type} (f : A → B) (lists : list (list A)) (acc : list B) :
  foldl (λ all l, all ++ (f <$> l)) acc lists = acc ++ (f <$> mjoin lists).
Proof.
  revert acc. induction lists as [|l lists IH]; intros acc; simpl; [by rewrite app_nil_r|].
  by rewrite IH, fmap_app, app_assoc.
Qed.

Lemma dashboardIdsByPackageName_keys (saved_objects : list PackageSavedObject) (k : string) :
  k ∈ (dashboardIdsByPackageName saved_objects).*1 → k ∈ pkg_id <$> saved_objects.
Proof.
  induction saved_objects as [|pkg saved_objects IH] using rev_ind;
    [by intros ?%not_elem_of_nil|].
  rewrite dashboardIdsByPackageName_snoc, fmap_app, elem_of_app. simpl.
  destruct (decide (pkg_id pkg ∈ (dashboardIdsByPackageName saved_objects).*1)) as [Hin|Hnotin].
  - rewrite obj_set_keys by done. auto.
  - rewrite obj_set_fresh, fmap_app, elem_of_app by done. simpl.
    intros [?|?]; auto.
Qed.

Lemma dashboardIdsByPackageName_NoDup (saved_objects : list PackageSavedObject) :
  NoDup (pkg_id <$> saved_objects) →
  dashboardIdsByPackageName saved_objects
  = (λ pkg, (pkg_id pkg, dashboardsOf pkg)) <$> saved_objects.
Proof.
  induction saved_objects as [|pkg saved_objects IH] using rev_ind; [done|].
  rewrite fmap_app. intros (Hnd & Hfresh & _)%NoDup_app.
  rewrite dashboardIdsByPackageName_snoc, fmap_app, obj_set_fresh; [by rewrite IH|].
  intros Hin%dashboardIdsByPackageName_keys.
  apply (Hfresh _ Hin). simpl. by apply list_elem_of_singleton.
Qed.

(** When no two package saved objects have the same id, [bulkGet] is asked,
    up to the order of the entries, for one object per dashboard among the
    installed assets of every package, each of the dashboard type and with
    the one field [title]. *)
Theorem bulkGetRequest_asks_for_dashboards (saved_objects : list PackageSavedObject) :
  NoDup (pkg_id <$> saved_objects) →
  bulkGetRequest saved_objects
    ≡ₚ (λ id, {| bulk_id := id; bulk_type := dashboardType; fields := ["title"] |})
         <$> mjoin ((λ pkg,
                       asset_id <$>
                       List.filter (λ o, String.eqb (asset_type o) dashboardType)
                         (match attributes pkg with
                          | Some installation => installed_kibana installation
                          | None => []
                          end)) <$> saved_objects).
Proof.
  intros Hnd. unfold bulkGetRequest.
  rewrite foldl_concat, dashboardIdsByPackageName_NoDup by done. simpl.
  assert (((λ pkg, (pkg_id pkg, dashboardsOf pkg)) <$> saved_objects).*2
          = dashboardsOf <$> saved_objects) as ->.
  { rewrite <- list_fmap_compose. by apply list_fmap_ext. }
  assert (dashboardsOf <$> saved_objects
          = (λ pkg,
               asset_id <$>
               List.filter (λ o, String.eqb (asset_type o) dashboardType)
                 (match attributes pkg with
                  | Some installation => installed_kibana installation
                  | None => []
                  end)) <$> saved_objects) as ->; [|done].
  apply list_fmap_ext. intros _ pkg _. apply dashboardsOf_filter.
Qed.

(** *** One data stream *)

(** [packageMetadata] holds, for a name, nothing else than what the callback
    computes for the package saved object of that name. *)
Definition coherent (t : Tables) (packageMetadata : gmap string PackageMetadata) : Prop :=
  ∀ pkgName metadata, packageMetadata !! pkgName = Some metadata →
    ∃ pkgSavedObject, packageSavedObjectsByName t !! pkgName = Some pkgSavedObject ∧
                      metadata = metadataOf t pkgName pkgSavedObject.

Lemma coherent_empty (t : Tables) : coherent t ∅.
Proof. intros pkgName metadata. by rewrite lookup_empty. Qed.

Lemma resumeDataStream_coherent (t : Tables) (dataStreamName : string)
    (dataStream : MergedDataStream) (aggregations : Aggregations)
    (packageMetadata : gmap string PackageMetadata) :
  coherent t packageMetadata →
  (resumeDataStream t dataStreamName dataStream aggregations packageMetadata).1
    = (resumeDataStream t dataStreamName dataStream aggregations ∅).1 ∧
  coherent t (resumeDataStream t dataStreamName dataStream aggregations packageMetadata).2.
Proof.
  intros Hcoh. unfold resumeDataStream.
  destruct (truthy (or_empty (meta_package_name dataStream))); [|done].
  destruct (packageSavedObjectsByName t !! or_empty (meta_package_name dataStream))
    as [pkg|] eqn:Hpkg; [|done].
  rewrite lookup_empty. simpl.
  destruct (packageMetadata !! or_empty (meta_package_name dataStream)) as [metadata|] eqn:Hm.
  - destruct (Hcoh _ _ Hm) as (pkg' & Hpkg' & ->).
    rewrite Hpkg in Hpkg'. by injection Hpkg' as <-.
  - split; [done|]. intros k metadata. rewrite lookup_insert. case_decide as Hk.
    + intros [= <-]. subst k. by exists pkg.
    + apply Hcoh.
Qed.


Lemma title_or_id_empty (dashboard : DashboardSavedObject) :
  title_or_id dashboard = "" → dashboard_id dashboard = "".
Proof.
  unfold title_or_id. destruct (dashboard_title dashboard) as [text|]; [|done].
  destruct (truthy text) eqn:Htext; [|done].
  intros ->. apply truthy_nonempty in Htext. done.
Qed.

Lemma found_dashboard_ids (allById : gmap string DashboardSavedObject) (ids : list string) :
  (∀ k so, allById !! k = Some so → dashboard_id so = k) →
  id <$> omap (λ dashboardId,
                 (λ dashboard, {| id := dashboard_id dashboard; title := title_or_id dashboard |})
                   <$> allById !! dashboardId) ids
  = filter (λ dashboardId, is_Some (allById !! dashboardId)) ids.
Proof.
  intros Hkey. induction ids as [|dashboardId ids IH]; [done|]. csimpl.
  destruct (allById !! dashboardId) as [so|] eqn:Hso; csimpl.
  - rewrite filter_cons_True by (by rewrite Hso).
    f_equal; [by apply Hkey|exact IH].
  - rewrite filter_cons_False; [exact IH|]. rewrite Hso. by intros [? ?].
Qed.

(** A data stream of a package that has a saved object gets the version of
    that saved object, or the empty string when it has none, and the
    dashboards among the installed assets of the package that [bulkGet]
    returned, in the order of the assets; each under its id, and under its
    title, or under its id again when its title is missing or empty. *)
Theorem installed_package_metadata (saved_objects : list PackageSavedObject)
    (allDashboardSavedObjects : list DashboardSavedObject) (dataStreamName : string)
    (dataStream : MergedDataStream) (aggregations : Aggregations)
    (pkgSavedObject : PackageSavedObject) :
  or_empty (meta_package_name dataStream) ≠ "" →
  keyBy pkg_id saved_objects !! or_empty (meta_package_name dataStream) = Some pkgSavedObject →
  package_version
    (resumeDataStream (tables saved_objects allDashboardSavedObjects) dataStreamName
       dataStream aggregations ∅).1
    = or_empty (version <$> attributes pkgSavedObject) ∧
  id <$> dashboards
    (resumeDataStream (tables saved_objects allDashboardSavedObjects) dataStreamName
       dataStream aggregations ∅).1
    = filter (λ dashboardId, is_Some (keyBy dashboard_id allDashboardSavedObjects !! dashboardId))
        (dashboardsOf pkgSavedObject) ∧
  Forall (λ d, ∃ dashboard, dashboard ∈ allDashboardSavedObjects ∧
                 id d = dashboard_id dashboard ∧ title d = title_or_id dashboard ∧
                 (title d = "" → id d = ""))
    (dashboards
       (resumeDataStream (tables saved_objects allDashboardSavedObjects) dataStreamName
          dataStream aggregations ∅).1).
Proof.
  intros Hname%truthy_nonempty Hpkg. unfold resumeDataStream. simpl.
  rewrite Hname, Hpkg, lookup_empty. simpl.
  rewrite packageDashboards_omap. simpl. rewrite dashboardIds_keyBy, Hpkg. simpl.
  split; [done|]. split.
  - apply found_dashboard_ids. intros k so Hso. by apply keyBy_lookup in Hso as [? _].
  - apply Forall_forall. intros d Hd.
    apply list_elem_of_omap in Hd as (dashboardId & _ & Hd).
    destruct (keyBy dashboard_id allDashboardSavedObjects !! dashboardId) as [so|] eqn:Hso;
      [|done].
    injection Hd as <-. apply keyBy_lookup in Hso as [_ Hin].
    exists so. repeat split; [done|]. simpl. apply title_or_id_empty.
Qed.

(** *** All data streams *)

Lemma answers_snoc (t : Tables) (g : Gathering) (order : list nat) (i : nat) :
  foldl (answer t) g (order ++ [i]) = answer t (foldl (answer t) g order) i.
Proof. by rewrite foldl_app. Qed.

(** What holds of the handler while the searches are answered: the shared
    [packageMetadata] is coherent; a callback that waits has no response yet;
    one that does not wait any more has the response it would have with an
    empty [packageMetadata], or has made the handler fail; and the error of
    the handler, if any, is that of a search that was answered. *)
Definition gathering_inv (t : Tables) (queries : list Query) (g : Gathering) : Prop :=
  coherent t (packageMetadata g) ∧
  (∀ i q, waiting g !! i = Some q → queries !! i = Some q ∧ fulfilled g !! i = None) ∧
  (∀ i q, waiting g !! i = None → queries !! i = Some q →
     match q_search q with
     | Return _ => fulfilled g !! i = dataStreamResponse t q
     | Throw _ => is_Some (rejection g)
     end) ∧
  (∀ error, rejection g = Some error →
     ∃ i q, waiting g !! i = None ∧ queries !! i = Some q ∧ q_search q = Throw error).

Lemma gathering_inv_dispatch (t : Tables) (queries : list Query) :
  gathering_inv t queries (dispatch queries).
Proof.
  unfold gathering_inv, dispatch. simpl. split; [apply coherent_empty|].
  split; [|split].
  - intros i q. by rewrite lookup_map_seq_0, lookup_empty.
  - intros i q. rewrite lookup_map_seq_0. congruence.
  - done.
Qed.

Lemma gathering_inv_answer (t : Tables) (queries : list Query) (g : Gathering) (i : nat) :
  gathering_inv t queries g → gathering_inv t queries (answer t g i).
Proof.
  intros (Hcoh & Hwait & Hdone & Hrej). unfold answer.
  destruct (waiting g !! i) as [q|] eqn:Hi; [|done].
  destruct (Hwait i q Hi) as [Hq Hnone].
  destruct (q_search q) as [aggregations|error] eqn:Hsearch.
  - destruct (resumeDataStream_coherent t (q_name q) (q_stream q) aggregations _ Hcoh)
      as [Hsame Hcoh'].
    unfold gathering_inv. simpl. split; [done|]. split; [|split].
    + intros j q'. rewrite lookup_delete. case_decide as Hj; [done|].
      intros Hwj. rewrite lookup_insert_ne by done. by apply Hwait.
    + intros j q'. rewrite lookup_delete. case_decide as Hj.
      * subst j. intros _ Hq'. rewrite Hq in Hq'. injection Hq' as <-.
        rewrite Hsearch, lookup_insert_eq. unfold dataStreamResponse.
        by rewrite Hsearch, Hsame.
      * intros Hwj Hq'. rewrite lookup_insert_ne by done. by apply Hdone.
    + intros error Herr. destruct (Hrej error Herr) as (j & q' & Hwj & Hq' & Hthrow).
      exists j, q'. split; [|done]. rewrite lookup_delete. by case_decide.
  - unfold gathering_inv. simpl. split; [done|]. split; [|split].
    + intros j q'. rewrite lookup_delete. case_decide as Hj; [done|]. by apply Hwait.
    + intros j q'. rewrite lookup_delete. case_decide as Hj.
      * subst j. intros _ Hq'. rewrite Hq in Hq'. injection Hq' as <-.
        rewrite Hsearch. by destruct (rejection g).
      * intros Hwj Hq'. specialize (Hdone j q' Hwj Hq').
        destruct (q_search q'); [done|]. by destruct (rejection g).
    + intros error' Herr. destruct (rejection g) as [first|] eqn:Hfirst.
      * destruct (Hrej first eq_refl) as (j & q' & Hwj & Hq' & Hthrow).
        injection Herr as <-. exists j, q'. split; [|done].
        rewrite lookup_delete. by case_decide.
      * injection Herr as <-. exists i, q. by rewrite lookup_delete_eq.
Qed.

Lemma gathering_inv_answers (t : Tables) (queries : list Query) (order : list nat) :
  gathering_inv t queries (foldl (answer t) (dispatch queries) order).
Proof.
  induction order as [|i order IH] using rev_ind; [apply gathering_inv_dispatch|].
  rewrite answers_snoc. by apply gathering_inv_answer.
Qed.

Lemma waiting_answer (t : Tables) (g : Gathering) (i j : nat) :
  waiting (answer t g i) !! j = if decide (i = j) then None else waiting g !! j.
Proof.
  unfold answer. destruct (waiting g !! i) as [q|] eqn:Hi.
  - destruct (q_search q); simpl; apply lookup_delete.
  - case_decide; [by subst|done].
Qed.

Lemma waiting_answers (t : Tables) (g : Gathering) (order : list nat) (j : nat) :
  waiting (foldl (answer t) g order) !! j
  = if decide (j ∈ order) then None else waiting g !! j.
Proof.
  induction order as [|i order IH] using rev_ind.
  - by destruct (decide (j ∈ [])) as [?%not_elem_of_nil|].
  - rewrite answers_snoc, waiting_answer, IH.
    destruct (decide (i = j)) as [->|Hne].
    + rewrite decide_True; [done|]. apply elem_of_app. right. by apply list_elem_of_singleton.
    + destruct (decide (j ∈ order)) as [Hj|Hj].
      * rewrite decide_True; [done|]. apply elem_of_app. by left.
      * rewrite decide_False; [done|].
        rewrite elem_of_app, list_elem_of_singleton. intros [?|?]; [done|congruence].
Qed.

Lemma rejection_answer (t : Tables) (g : Gathering) (i : nat) (error : Thrown) :
  rejection g = Some error → rejection (answer t g i) = Some error.
Proof.
  intros Hg. unfold answer. destruct (waiting g !! i) as [q|]; [|done].
  destruct (q_search q); simpl; by rewrite Hg.
Qed.

Lemma rejection_answer_first (t : Tables) (g : Gathering) (i : nat) (q : Query)
    (error : Thrown) :
  waiting g !! i = Some q → q_search q = Throw error → rejection g = None →
  rejection (answer t g i) = Some error.
Proof. intros Hi Hthrow Hnone. unfold answer. by rewrite Hi, Hthrow, Hnone. Qed.

Lemma rejection_answers (t : Tables) (g : Gathering) (order : list nat) (error : Thrown) :
  rejection g = Some error → rejection (foldl (answer t) g order) = Some error.
Proof.
  intros Hg. induction order as [|i order IH] using rev_ind; [done|].
  rewrite answers_snoc. by apply rejection_answer.
Qed.

(** No search that was answered failed: the handler has not failed. *)
Lemma no_rejection (t : Tables) (queries : list Query) (order : list nat) :
  (∀ j q, j ∈ order → queries !! j = Some q → ∃ aggregations, q_search q = Return aggregations) →
  rejection (foldl (answer t) (dispatch queries) order) = None.
Proof.
  intros Hok.
  destruct (gathering_inv_answers t queries order) as (_ & _ & _ & Hrej).
  destruct (rejection _) as [error|]; [|done].
  destruct (Hrej error eq_refl) as (j & q & Hwj & Hq & Hthrow).
  rewrite waiting_answers in Hwj. case_decide as Hj.
  - destruct (Hok j q Hj Hq) as [aggregations Hret]. congruence.
  - unfold dispatch in Hwj. simpl in Hwj. rewrite lookup_map_seq_0 in Hwj. congruence.
Qed.

(** Once every search has been answered without an error, [Promise.all]
    gives the responses the data streams get with an empty [packageMetadata],
    in the order of the data streams. *)
Lemma all_answered (t : Tables) (queries : list Query) (order : list nat)
    (responses : list DataStream) :
  mapM (dataStreamResponse t) queries = Some responses →
  order ≡ₚ seq 0 (length queries) →
  gathered (length queries) (foldl (answer t) (dispatch queries) order)
  = Some (Return responses).
Proof.
  intros Hresp%mapM_Some_1 Hperm. unfold gathered.
  rewrite no_rejection.
  - assert (mapM (λ i, fulfilled (foldl (answer t) (dispatch queries) order) !! i)
              (seq 0 (length queries)) = Some responses) as ->; [|done].
    apply mapM_Some_2, Forall2_same_length_lookup_2.
    { rewrite length_seq. by eapply Forall2_length. }
    intros i j d [-> Hi]%lookup_seq Hd. simpl.
    destruct (lookup_lt_is_Some_2 queries i Hi) as [q Hq].
    pose proof (Forall2_lookup_lr _ _ _ _ _ _ Hresp Hq Hd) as Hqd.
    destruct (gathering_inv_answers t queries order) as (_ & _ & Hdone & _).
    assert (waiting (foldl (answer t) (dispatch queries) order) !! i = None) as Hwi.
    { rewrite waiting_answers, decide_True; [done|]. rewrite Hperm. apply elem_of_seq. lia. }
    specialize (Hdone i q Hwi Hq). unfold dataStreamResponse in Hqd.
    destruct (q_search q) eqn:Hsearch; [|done].
    rewrite Hdone. unfold dataStreamResponse. by rewrite Hsearch.
  - intros j q _ Hq.
    destruct (Forall2_lookup_l _ _ _ _ _ Hresp Hq) as (d & _ & Hd).
    unfold dataStreamResponse in Hd. destruct (q_search q); [by eexists|done].
Qed.

(** When every search is answered without an error, then, whatever the
    order of the answers, [getListHandler] ends with [response.ok], and the
    data streams of the body are the responses the data streams get with an
    empty [packageMetadata], filtered and sorted: sharing [packageMetadata]
    between the callbacks changes no response. *)
Theorem responses_do_not_depend_on_order (t : Tables) (queries : list Query)
    (order : list nat) (responses : list DataStream) :
  mapM (dataStreamResponse t) queries = Some responses →
  order ≡ₚ seq 0 (length queries) →
  getListHandler_from t queries order
  = Some (ResponseOk
            {| data_streams :=
                 Array_sort by_last_activity (List.filter has_all_fields responses) |}).
Proof.
  intros Hresp Hperm. unfold getListHandler_from.
  by rewrite (all_answered t queries order responses Hresp Hperm).
Qed.

(** The first search that fails decides the outcome: the handler hands its
    error to the error handler, whatever the searches answered after it, and
    gives no list of data streams. *)
Theorem first_failed_search_is_reported (t : Tables) (queries : list Query)
    (before after : list nat) (i : nat) (q : Query) (error : Thrown) :
  (∀ j q', j ∈ before → queries !! j = Some q' →
     ∃ aggregations, q_search q' = Return aggregations) →
  i ∉ before →
  queries !! i = Some q →
  q_search q = Throw error →
  getListHandler_from t queries (before ++ i :: after) = Some (IngestError error).
Proof.
  intros Hok Hfresh Hq Hthrow. unfold getListHandler_from, gathered.
  rewrite foldl_app. simpl.
  rewrite (rejection_answers t _ after error); [done|].
  apply (rejection_answer_first t _ i q error); [|done|by apply no_rejection].
  rewrite waiting_answers, decide_False by done.
  unfold dispatch. simpl. by rewrite lookup_map_seq_0.
Qed.

(** As long as a search is not answered, and none has failed, the handler
    gives no answer: it never responds with a part of the list. *)
Theorem waits_for_every_search (t : Tables) (queries : list Query) (order : list nat)
    (i : nat) (q : Query) :
  (∀ j q', j ∈ order → queries !! j = Some q' →
     ∃ aggregations, q_search q' = Return aggregations) →
  i ∉ order →
  queries !! i = Some q →
  getListHandler_from t queries order = None.
Proof.
  intros Hok Hfresh Hq. unfold getListHandler_from, gathered.
  rewrite no_rejection by done.
  assert (mapM (λ j, fulfilled (foldl (answer t) (dispatch queries) order) !! j)
            (seq 0 (length queries)) = None) as ->; [|done].
  apply mapM_None_2, Exists_exists. exists i. split.
  - apply elem_of_seq. apply lookup_lt_Some in Hq. lia.
  - destruct (gathering_inv_answers t queries order) as (_ & Hwait & _ & _).
    apply (Hwait i q). rewrite waiting_answers, decide_False by done.
    unfold dispatch. simpl. by rewrite lookup_map_seq_0.
Qed.

(** When every search is answered without an error, a data stream is in the
    list of the response exactly when its search found a bucket with a
    non-empty key for each of the dataset, the namespace and the type. *)
Theorem listed_iff_all_three_found (t : Tables) (queries : list Query)
    (order : list nat) (responses : list DataStream) :
  mapM (dataStreamResponse t) queries = Some responses →
  order ≡ₚ seq 0 (length queries) →
  ∃ body,
    getListHandler_from t queries order = Some (ResponseOk body) ∧
    ∀ q aggregations d,
      q ∈ queries → q_search q = Return aggregations → dataStreamResponse t q = Some d →
      (d ∈ data_streams body ↔
       first_key (agg_dataset aggregations) ≠ "" ∧
       first_key (agg_namespace aggregations) ≠ "" ∧
       first_key (agg_type aggregations) ≠ "").
Proof.
  intros Hresp Hperm. eexists. split.
  { unfold getListHandler_from.
    by rewrite (all_answered t queries order responses Hresp Hperm). }
  intros q aggregations d Hq Hsearch Hd. simpl. unfold Array_sort.
  rewrite merge_sort_Permutation, list_elem_of_In, filter_In, <- list_elem_of_In.
  rewrite has_all_fields_spec.
  assert (d ∈ responses) as Hin.
  { apply mapM_Some_1 in Hresp. apply list_elem_of_lookup in Hq as [i Hq].
    destruct (Forall2_lookup_l _ _ _ _ _ Hresp Hq) as (d' & Hd' & Hqd').
    rewrite Hd in Hqd'. injection Hqd' as <-. by eapply list_elem_of_lookup_2. }
  assert (dataset d = first_key (agg_dataset aggregations) ∧
          namespace d = first_key (agg_namespace aggregations) ∧
          type d = first_key (agg_type aggregations)) as (-> & -> & ->); [|tauto].
  unfold dataStreamResponse in Hd. rewrite Hsearch in Hd. injection Hd as <-.
  unfold resumeDataStream.
  destruct (truthy _); [destruct (packageSavedObjectsByName t !! _)|]; done.
Qed.

Lemma filter_sublist {A : Type} (keep : A → bool) (l : list A) :
  List.filter keep l `sublist_of` l.
Proof.
  induction l as [|x l IH]; simpl; [done|].
  destruct (keep x); by constructor.
Qed.

Lemma dataStreamResponse_index (t : Tables) (q : Query) (d : DataStream) :
  dataStreamResponse t q = Some d → index d = q_name q.
Proof.
  unfold dataStreamResponse. destruct (q_search q); [|done]. intros [= <-].
  unfold resumeDataStream.
  destruct (truthy _); [destruct (packageSavedObjectsByName t !! _)|]; done.
Qed.

(** When every search is answered without an error, the data streams listed
    are among those asked about, under their names, none more often than it
    was asked about: distinct names give distinct entries. *)
Theorem listed_under_their_names (t : Tables) (queries : list Query)
    (order : list nat) (responses : list DataStream) :
  mapM (dataStreamResponse t) queries = Some responses →
  order ≡ₚ seq 0 (length queries) →
  ∃ body,
    getListHandler_from t queries order = Some (ResponseOk body) ∧
    index <$> data_streams body ⊆+ q_name <$> queries ∧
    (NoDup (q_name <$> queries) → NoDup (index <$> data_streams body)).
Proof.
  intros Hresp Hperm. eexists. split.
  { unfold getListHandler_from.
    by rewrite (all_answered t queries order responses Hresp Hperm). }
  simpl. unfold Array_sort.
  assert (index <$> responses = q_name <$> queries) as Hnames.
  { apply mapM_Some_1 in Hresp. clear Hperm.
    induction Hresp as [|q d queries responses Hqd _ IH]; [done|].
    rewrite !fmap_cons, IH. f_equal. by apply (dataStreamResponse_index t). }
  assert (index <$> merge_sort (sorts_before by_last_activity)
                      (List.filter has_all_fields responses)
          ⊆+ q_name <$> queries) as Hsub.
  { rewrite merge_sort_Permutation, <- Hnames.
    apply sublist_submseteq, fmap_sublist, filter_sublist. }
  split; [done|]. intros Hnd.
  rewrite merge_sort_Permutation. rewrite <- Hnames in Hnd.
  apply (sublist_NoDup _ _ Hnd), fmap_sublist, filter_sublist.
Qed.

End Handler.

(** *** The handler on a small installation *)

Definition sample_packages : list PackageSavedObject :=
  [ {| pkg_id := "nginx";
       attributes :=
         Some {| installed_kibana :=
                   [ {| asset_id := "nginx-overview"; asset_type := "dashboard" |};
                     {| asset_id := "nginx-errors"; asset_type := "visualization" |};
                     {| asset_id := "nginx-access"; asset_type := "dashboard" |} ];
                 version := "0.3.1" |} |};
    {| pkg_id := "system"; attributes := None |} ].

Definition sample_dashboards : list DashboardSavedObject :=
  [ {| dashboard_id := "nginx-overview"; dashboard_title := Some "Nginx overview" |};
    {| dashboard_id := "nginx-access"; dashboard_title := None |} ].

Definition sample_tables : Tables := tables "dashboard" sample_packages sample_dashboards.

Definition nginx_stream (ms : Z) : MergedDataStream :=
  {| meta_package_name := Some "nginx"; indices := [".ds-logs-nginx.access-default-000001"];
     maximum_timestamp := ms; store_size_bytes := 2048 |}.

Definition plain_stream (ms : Z) : MergedDataStream :=
  {| meta_package_name := None; indices := [".ds-logs-generic-default-000001"];
     maximum_timestamp := ms; store_size_bytes := 512 |}.

Definition found (ds ns ty : list string) : Aggregations :=
  {| agg_dataset := ds; agg_namespace := ns; agg_type := ty |}.

Definition sample_queries : list Query :=
  [ {| q_name := "logs-nginx.access-default"; q_stream := nginx_stream 5;
       q_search := Return (found ["nginx.access"] ["default"] ["logs"]) |};
    {| q_name := "logs-generic-default"; q_stream := plain_stream 9;
       q_search := Return (found [] ["default"] ["logs"]) |};
    {| q_name := "metrics-nginx.stubstatus-default"; q_stream := nginx_stream 7;
       q_search := Return (found ["nginx.stubstatus"] ["default"] ["metrics"]) |} ].

Definition failing_queries : list Query :=
  [ {| q_name := "logs-nginx.access-default"; q_stream := nginx_stream 5;
       q_search := Return (found ["nginx.access"] ["default"] ["logs"]) |};
    {| q_name := "logs-generic-default"; q_stream := plain_stream 9;
       q_search := Throw (ErrorObject "search_phase_execution_exception") |} ].

Example getListHandler_from_sample :
  (λ r, match r with
        | Some (ResponseOk body) =>
            (λ d, (index d, package_version d, id <$> dashboards d, title <$> dashboards d))
              <$> data_streams body
        | _ => []
        end) (getListHandler_from sample_tables sample_queries [2; 0; 1]%nat)
  = [("metrics-nginx.stubstatus-default", "0.3.1", ["nginx-overview"; "nginx-access"],
      ["Nginx overview"; "nginx-access"]);
     ("logs-nginx.access-default", "0.3.1", ["nginx-overview"; "nginx-access"],
      ["Nginx overview"; "nginx-access"])].
Proof. vm_compute. reflexivity. Qed.

Lemma bulkGetRequest_asks_for_dashboards_witness :
  bulkGetRequest "dashboard" sample_packages
    ≡ₚ [ {| bulk_id := "nginx-overview"; bulk_type := "dashboard"; fields := ["title"] |};
         {| bulk_id := "nginx-access"; bulk_type := "dashboard"; fields := ["title"] |} ].
Proof.
  apply (bulkGetRequest_asks_for_dashboards "dashboard" sample_packages).
  compute_done.
Defined.


Lemma installed_package_metadata_witness :
  package_version
    (resumeDataStream (tables "dashboard" sample_packages sample_dashboards)
       "logs-nginx.access-default" (nginx_stream 5)
       (found ["nginx.access"] ["default"] ["logs"]) ∅).1 = "0.3.1".
Proof.
  destruct (installed_package_metadata "dashboard" sample_packages sample_dashboards
              "logs-nginx.access-default" (nginx_stream 5)
              (found ["nginx.access"] ["default"] ["logs"])
              {| pkg_id := "nginx";
                 attributes :=
                   Some {| installed_kibana :=
                             [ {| asset_id := "nginx-overview"; asset_type := "dashboard" |};
                               {| asset_id := "nginx-errors"; asset_type := "visualization" |};
                               {| asset_id := "nginx-access"; asset_type := "dashboard" |} ];
                           version := "0.3.1" |} |}) as (Hversion & _ & _).
  - discriminate.
  - vm_compute. reflexivity.
  - exact Hversion.
Defined.

Lemma responses_do_not_depend_on_order_witness :
  getListHandler_from sample_tables sample_queries [2; 0; 1]%nat
  = getListHandler_from sample_tables sample_queries [0; 1; 2]%nat.
Proof.
  assert (∃ responses, mapM (dataStreamResponse sample_tables) sample_queries = Some responses)
    as [responses Hresponses] by (vm_compute; eauto).
  rewrite (responses_do_not_depend_on_order sample_tables sample_queries [2; 0; 1]%nat
             responses Hresponses) by compute_done.
  rewrite (responses_do_not_depend_on_order sample_tables sample_queries [0; 1; 2]%nat
             responses Hresponses) by compute_done.
  reflexivity.
Defined.

Lemma first_failed_search_is_reported_witness :
  getListHandler_from sample_tables failing_queries [0; 1]%nat
  = Some (IngestError (ErrorObject "search_phase_execution_exception")).
Proof.
  apply (first_failed_search_is_reported sample_tables failing_queries [0]%nat [] 1
           {| q_name := "logs-generic-default"; q_stream := plain_stream 9;
              q_search := Throw (ErrorObject "search_phase_execution_exception") |}).
  - intros j q' ->%list_elem_of_singleton [= <-]. by eexists.
  - compute_done.
  - reflexivity.
  - reflexivity.
Defined.

Lemma waits_for_every_search_witness :
  getListHandler_from sample_tables sample_queries [2; 0]%nat = None.
Proof.
  apply (waits_for_every_search sample_tables sample_queries [2; 0]%nat 1
           {| q_name := "logs-generic-default"; q_stream := plain_stream 9;
              q_search := Return (found [] ["default"] ["logs"]) |}).
  - intros j q' Hj Hq'. apply elem_of_cons in Hj as [->|Hj].
    + injection Hq' as <-. by eexists.
    + apply list_elem_of_singleton in Hj as ->. injection Hq' as <-. by eexists.
  - compute_done.
  - reflexivity.
Defined.

Lemma listed_iff_all_three_found_witness :
  ∃ body,
    getListHandler_from sample_tables sample_queries [1; 2; 0]%nat = Some (ResponseOk body) ∧
    length (data_streams body) = 2%nat.
Proof.
  assert (∃ responses, mapM (dataStreamResponse sample_tables) sample_queries = Some responses)
    as [responses Hresponses] by (vm_compute; eauto).
  destruct (listed_iff_all_three_found sample_tables sample_queries [1; 2; 0]%nat
              responses Hresponses) as (body & Hbody & _); [compute_done|].
  exists body. split; [exact Hbody|].
  revert Hbody. vm_compute. intros [= <-]. reflexivity.
Defined.

Lemma listed_under_their_names_witness :
  ∃ body,
    getListHandler_from sample_tables sample_queries [0; 2; 1]%nat = Some (ResponseOk body) ∧
    NoDup (index <$> data_streams body).
Proof.
  assert (∃ responses, mapM (dataStreamResponse sample_tables) sample_queries = Some responses)
    as [responses Hresponses] by (vm_compute; eauto).
  destruct (listed_under_their_names sample_tables sample_queries [0; 2; 1]%nat
              responses Hresponses) as (body & Hbody & _ & Hnd); [compute_done|].
  exists body. split; [exact Hbody|]. apply Hnd. compute_done.
Defined.

End FleetGather.
